(** * The evaluator of the alphazero pipeline (src/alphazero/evaluator.py)

    A shallow embedding of [Evaluator.start], [Evaluator.evaluate],
    [Evaluator.play_game] and [save_accepted_model], followed by the
    properties of the tournament, the episode runner, the model archive
    and the promotion barrier. *)

From Stdlib Require Import ZArith Lia Bool Ascii String SpecFloat.
From stdpp Require Import base option list strings pretty gmap.

Local Open Scope Z_scope.

(** ** Python values the evaluator relies on *)

Module Py.

(** The exceptions the modelled statements can raise.  Of the file name
    an [OSError] carries, only the one the archive's caller could tell a
    regular file by is kept. *)
Inductive exn : Type :=
| ZeroDivisionError
| OverflowError
| KeyError
| TypeError
| UnboundLocalError
| ValueError
| FileNotFoundError
| FileExistsError (path : string)
| NotADirectoryError
| RuntimeError.

(** A statement either completes with a value or raises. *)
Inductive result (A : Type) : Type :=
| Ret (a : A)
| Raise (e : exn).
Arguments Ret {A} a.
Arguments Raise {A} e.

#[global] Instance result_ret : MRet result := fun A a => Ret a.
#[global] Instance result_bind : MBind result := fun A B f m =>
  match m with
  | Ret a => f a
  | Raise e => Raise e
  end.

(** [range(n)]: the integers 0, 1, ..., n-1; empty when n <= 0. *)
Definition range (n : Z) : list Z := Z.of_nat <$> seq 0 (Z.to_nat n).

(** Python floats are IEEE-754 binary64 numbers. *)
Definition prec : Z := 53.
Definition emax : Z := 1024.

(** [float(z)] for an [int]: the nearest float, exact when |z| < 2^53. *)
Definition float_of_int (z : Z) : spec_float :=
  binary_normalize prec emax z 0 false.

(** An integer as the operand of a division that rounds once: the
    number itself, with as long a mantissa as it takes. *)
Definition exact_of_int (z : Z) : spec_float :=
  match z with
  | 0 => S754_zero false
  | Z.pos p => S754_finite false p 0
  | Z.neg p => S754_finite true p 0
  end.

(** The quotient of two integers rounded once, to the nearest float and
    to even on a tie; an infinity when it is too large for a float. *)
Definition rounded_quotient (a b : Z) : spec_float :=
  SFdiv prec emax (exact_of_int a) (exact_of_int b).

(** [a / b] on two [int]s: true division.  Python rounds the exact
    quotient once, whatever the size of the operands, raises
    [ZeroDivisionError] on a zero divisor and [OverflowError] when the
    quotient is too large for a float. *)
Definition truediv (a b : Z) : result spec_float :=
  if decide (b = 0) then Raise ZeroDivisionError
  else match rounded_quotient a b with
       | S754_infinity _ => Raise OverflowError
       | q => Ret q
       end.

(** [x >= y] on floats; false as soon as one side is a NaN. *)
Definition float_ge (x y : spec_float) : bool := SFleb y x.

(** The float that a decimal literal [num/den] denotes (0.55 is 55/100,
    0.33333333333333334 is 33333333333333334/10^17): the float nearest
    to the fraction. *)
Definition float_of_fraction (num den : Z) : spec_float :=
  rounded_quotient num den.

End Py.

Import Py.

(** The fields of [self.args] that the evaluator reads. *)
Record args : Type := Args {
  num_evaluate_games : Z;
  evaluation_threshold : spec_float;
  new_model_queue_timeout : Z;
  accepted_model_path : string
}.

(** ** [Evaluator.evaluate]: the tournament *)

Module Tournament.

(** One call of [self.play_game], as the loop made it. *)
Record episode (Model : Type) : Type := Episode {
  game_index : Z;
  played_first : Model;
  played_second : Model;
  game_result : Z;
  counted_win : bool
}.
Arguments Episode {Model}.
Arguments game_index {Model}.
Arguments played_first {Model}.
Arguments played_second {Model}.
Arguments game_result {Model}.
Arguments counted_win {Model}.

(** The loop's variables, with the log of the episodes played so far. *)
Record loop_state (Model : Type) : Type := LoopState {
  num_wins : Z;
  first_player : Model;
  second_player : Model;
  played : list (episode Model)
}.
Arguments LoopState {Model}.
Arguments num_wins {Model}.
Arguments first_player {Model}.
Arguments second_player {Model}.
Arguments played {Model}.

Section Evaluate.
Context {Model : Type}.

(** [play_game i first second]: what the [i]-th call of
    [self.play_game(first, second)] returns (1, -1 or 0).  The index
    stands for everything an episode depends on besides the two players. *)
Variable play_game : Z -> Model -> Model -> Z.

(** The test of line 106. *)
Definition new_model_won (halfway_point i result : Z) : bool :=
  (bool_decide (i < halfway_point) && bool_decide (result = -1))
  || (bool_decide (i >= halfway_point) && bool_decide (result = 1)).

(** One iteration of the [for] loop (lines 96-107). *)
Definition evaluate_step (halfway_point : Z)
    (st : loop_state Model) (i : Z) : loop_state Model :=
  let '(first, second) :=
    if bool_decide (i = halfway_point)
    then (second_player st, first_player st)
    else (first_player st, second_player st) in
  let result := play_game i first second in
  let won := new_model_won halfway_point i result in
  {| num_wins := if won then num_wins st + 1 else num_wins st;
     first_player := first;
     second_player := second;
     played := played st ++ [Episode i first second result won] |}.

(** Lines 91-107: the state when the loop is over. *)
Definition evaluate_loop (a : args) (current_model new_model : Model)
    : loop_state Model :=
  let halfway_point := num_evaluate_games a `div` 2 in
  foldl (evaluate_step halfway_point)
        (LoopState 0 current_model new_model [])
        (range (num_evaluate_games a)).

(** [evaluate(current_model, new_model)]. *)
Definition evaluate (a : args) (current_model new_model : Model)
    : result bool :=
  let st := evaluate_loop a current_model new_model in
  ratio ← truediv (num_wins st) (num_evaluate_games a);
  mret (float_ge ratio (evaluation_threshold a)).

(** *** The tournament game by game, as it is described *)

(** Game [i] of [n]: the incumbent moves first before the halfway point,
    the candidate from there on; the candidate wins as second player in
    the first half and as first player in the second. *)
Definition expected_episode (n : Z) (current_model new_model : Model)
    (i : Z) : episode Model :=
  let first := if bool_decide (i < n `div` 2) then current_model else new_model in
  let second := if bool_decide (i < n `div` 2) then new_model else current_model in
  let result := play_game i first second in
  Episode i first second result
    (bool_decide ((i < n `div` 2 /\ result = -1) \/ (n `div` 2 <= i /\ result = 1))).

(** The candidate's wins among logged episodes. *)
Definition count_wins (log : list (episode Model)) : Z :=
  Z.of_nat (length (filter (fun e => counted_win e = true) log)).

(** The episodes of a log that belong to the first half. *)
Definition first_half (n : Z) (log : list (episode Model)) : list (episode Model) :=
  filter (fun e => game_index e < n `div` 2) log.

(** The episodes of a log that belong to the second half. *)
Definition second_half (n : Z) (log : list (episode Model)) : list (episode Model) :=
  filter (fun e => n `div` 2 <= game_index e) log.

(** The loop's variables after the games 0 to k-1, as described: the
    players are swapped once the halfway point is behind. *)
Definition after_games (n : Z) (current_model new_model : Model) (k : nat)
    : loop_state Model :=
  let log := expected_episode n current_model new_model
               <$> range (Z.of_nat k) in
  let swapped := bool_decide (n `div` 2 < Z.of_nat k) in
  LoopState (count_wins log)
            (if swapped then new_model else current_model)
            (if swapped then current_model else new_model)
            log.

End Evaluate.

End Tournament.

(** ** The acceptance test read as a comparison of fractions *)

Module Exact.

(** [w/n >= num/den] in the rationals, for positive [n] and [den]: what a
    threshold written [num/den] in decimal asks for. *)
Definition ge_fraction (w n num den : Z) : bool :=
  bool_decide (num * n <= den * w).

(** [w/n >= x] in the rationals, for positive [n] and the number the
    float [x] stands for. *)
Definition ge_float (w n : Z) (x : spec_float) : bool :=
  match x with
  | S754_zero _ => bool_decide (0 <= w)
  | S754_finite s m e =>
      let mantissa := if s then Z.neg m else Z.pos m in
      if bool_decide (0 <= e)
      then bool_decide (mantissa * 2 ^ e * n <= w)
      else bool_decide (mantissa * n <= w * 2 ^ (- e))
  | S754_infinity s => s
  | S754_nan => false
  end.

End Exact.

(** ** [Evaluator.evaluate] over episodes that may not return *)

Module PartialTournament.

Import Tournament.

Section Evaluate.
Context {Model : Type}.

(** [play_game i first second]: what the [i]-th call of
    [self.play_game(first, second)] returns, [None] when it does not
    return: an episode is a [while] loop that goes on until the game has
    ended. *)
Variable play_game : Z -> Model -> Model -> option Z.

(** One iteration of the [for] loop (lines 96-107); there is no next
    iteration after an episode that does not return. *)
Definition evaluate_step (halfway_point : Z)
    (st : option (loop_state Model)) (i : Z) : option (loop_state Model) :=
  st ← st;
  let '(first, second) :=
    if bool_decide (i = halfway_point)
    then (second_player st, first_player st)
    else (first_player st, second_player st) in
  result ← play_game i first second;
  let won := new_model_won halfway_point i result in
  Some {| num_wins := if won then num_wins st + 1 else num_wins st;
          first_player := first;
          second_player := second;
          played := played st ++ [Episode i first second result won] |}.

(** Lines 91-107. *)
Definition evaluate_loop (a : args) (current_model new_model : Model)
    : option (loop_state Model) :=
  let halfway_point := num_evaluate_games a `div` 2 in
  foldl (evaluate_step halfway_point)
        (Some (LoopState 0 current_model new_model []))
        (range (num_evaluate_games a)).

(** [evaluate(current_model, new_model)]: [None] when the call does not
    return, what it returns or raises otherwise. *)
Definition evaluate (a : args) (current_model new_model : Model)
    : option (result bool) :=
  st ← evaluate_loop a current_model new_model;
  Some (ratio ← truediv (num_wins st) (num_evaluate_games a);
        mret (float_ge ratio (evaluation_threshold a))).

End Evaluate.

End PartialTournament.

(** ** [Evaluator.play_game]: one episode *)

Module Episode.

(** [self.game], the rules.  [getNextState] receives whatever [action]
    holds when the search loop is over, [None] included. *)
Record Game (Board Action : Type) : Type := {
  getInitBoard : Board;
  getGameEnded : Board -> bool;
  checkIfValid : Board -> Action -> bool;
  getNextState : Board -> option Action -> Board;
  getResult : Board -> string
}.
Arguments getInitBoard {Board Action}.
Arguments getGameEnded {Board Action}.
Arguments checkIfValid {Board Action}.
Arguments getNextState {Board Action}.
Arguments getResult {Board Action}.

(** [self.board_translator]. *)
Record BoardTranslator (Board Tensor : Type) : Type := {
  encode : Board -> Tensor
}.
Arguments encode {Board Tensor}.

(** [self.move_translator]; an index is an entry of the sorted policy. *)
Record MoveTranslator (Action : Type) : Type := {
  decode : Z -> Action
}.
Arguments decode {Action}.

(** What the episode asks of a network: [forward] gives a policy and a
    value, and [policy.argsort(descending = True).flatten()] ranks the
    indices of the policy from most to least preferred. *)
Record Network (Model Tensor Policy Value : Type) : Type := {
  forward : Model -> Tensor -> Policy * Value;
  argsort_descending : Policy -> list Z
}.
Arguments forward {Model Tensor Policy Value}.
Arguments argsort_descending {Model Tensor Policy Value}.

Section PlayGame.
Context {Board Action Tensor Policy Value Model : Type}.
Variable game : Game Board Action.
Variable board_translator : BoardTranslator Board Tensor.
Variable move_translator : MoveTranslator Action.
Variable net : Network Model Tensor Policy Value.

(** Lines 138-141: the [for] loop over the sorted indices, started with
    [action] as line 137 or an earlier iteration left it. *)
Fixpoint select_action (board : Board) (sorted_indices : list Z)
    (action : option Action) : option Action :=
  match sorted_indices with
  | [] => action
  | index :: rest =>
      let action := decode move_translator index in
      if checkIfValid game board action then Some action
      else select_action board rest (Some action)
  end.

(** Lines 128-144: the move of [current_player] on [board]. *)
Definition play_turn (board : Board) (current_player : Model) : Board :=
  let tensor := encode board_translator board in
  let '(policy, _) := forward net current_player tensor in
  let sorted_indices := argsort_descending net policy in
  let action := select_action board sorted_indices None in
  getNextState game board action.

(** Lines 126-147: the [while] loop; [None] when [fuel] turns were not
    enough to end the game. *)
Fixpoint play_loop (fuel : nat) (board : Board)
    (current_player next_player : Model) : option Board :=
  if getGameEnded game board then Some board
  else match fuel with
       | O => None
       | S fuel =>
           play_loop fuel (play_turn board current_player)
                     next_player current_player
       end.

(** Lines 150-156. *)
Definition result_of (board : Board) : Z :=
  let result := getResult game board in
  if decide (result = "1-0") then 1
  else if decide (result = "0-1") then -1
  else 0.

(** [play_game(first_player, second_player)]. *)
Definition play_game (fuel : nat) (first_player second_player : Model)
    : option Z :=
  board ← play_loop fuel (getInitBoard game) first_player second_player;
  Some (result_of board).

(** The actions [getNextState] is called with, turn by turn, together
    with the board each was applied to. *)
Fixpoint applied_actions (fuel : nat) (board : Board)
    (current_player next_player : Model) : list (Board * option Action) :=
  if getGameEnded game board then []
  else match fuel with
       | O => []
       | S fuel =>
           let tensor := encode board_translator board in
           let sorted_indices :=
             argsort_descending net (forward net current_player tensor).1 in
           (board, select_action board sorted_indices None)
           :: applied_actions fuel (play_turn board current_player)
                              next_player current_player
       end.

End PlayGame.

End Episode.

(** ** [save_accepted_model]: the archive *)

Module Archive.

(** What [time.gmtime()] returns, down to the second. *)
Record struct_time : Type := StructTime {
  tm_year : Z;
  tm_mon : Z;
  tm_mday : Z;
  tm_hour : Z;
  tm_min : Z;
  tm_sec : Z
}.

(** A decimal digit as a character. *)
Definition digit (d : Z) : ascii := Ascii.ascii_of_N (48 + Z.to_N d).

(** A number below 100 on two digits, zero-padded: [%m], [%d], [%H], [%M]
    and [%S]. *)
Definition two_digits (n : Z) : string :=
  String (digit (n `div` 10)) (String (digit (n `mod` 10)) EmptyString).

(** [time.strftime("%Y-%m-%d_%H-%M-%S", t)]; [%Y] is the year in decimal. *)
Definition strftime (t : struct_time) : string :=
  pretty (tm_year t) +:+ "-" +:+ two_digits (tm_mon t) +:+ "-"
  +:+ two_digits (tm_mday t) +:+ "_" +:+ two_digits (tm_hour t) +:+ "-"
  +:+ two_digits (tm_min t) +:+ "-" +:+ two_digits (tm_sec t).

(** [s.startswith('/')]. *)
Definition starts_with_sep (s : string) : bool :=
  match s with
  | String c _ => bool_decide (c = "/"%char)
  | EmptyString => false
  end.

(** [s.endswith('/')]. *)
Fixpoint ends_with_sep (s : string) : bool :=
  match s with
  | EmptyString => false
  | String c EmptyString => bool_decide (c = "/"%char)
  | String _ rest => ends_with_sep rest
  end.

(** [os.path.join(a, b)] of posixpath. *)
Definition path_join (a b : string) : string :=
  if starts_with_sep b then b
  else if bool_decide (a = EmptyString) || ends_with_sep a then a +:+ b
  else a +:+ "/" +:+ b.

(** [ch in s]. *)
Fixpoint has_char (ch : ascii) (s : string) : bool :=
  match s with
  | EmptyString => false
  | String c rest => bool_decide (c = ch) || has_char ch rest
  end.

(** Python refuses a path with a NUL character, with [ValueError], before
    the operating system sees it. *)
Definition has_nul (s : string) : bool := has_char "000"%char s.

(** [s.split('/')]: the names between the slashes of a path. *)
Fixpoint split_sep (s : string) : list string :=
  match s with
  | EmptyString => [EmptyString]
  | String c rest =>
      if bool_decide (c = "/"%char) then EmptyString :: split_sep rest
      else match split_sep rest with
           | name :: names => String c name :: names
           | [] => [String c EmptyString]
           end
  end.

(** The names a path goes through, in order: an empty name (a slash at
    either end of the path, or right after another) does not count. *)
Definition components (s : string) : list string :=
  filter (fun name => name <> EmptyString) (split_sep s).

(** [..] and [.], the two names every directory has. *)
Definition is_dots (name : string) : bool :=
  bool_decide (name = "..") || bool_decide (name = ".").

(** A place in the file system is the list of the names that lead to it
    from the root.  One name further: [..] leads to the parent (the root
    is its own), [.] nowhere, any other name to a child. *)
Definition enter (here : list string) (name : string) : list string :=
  if bool_decide (name = "..") then removelast here
  else if bool_decide (name = ".") then here
  else here ++ [name].

(** The places other than [.] and [..] that the names lead through one
    after the other. *)
Fixpoint way_from (here : list string) (names : list string)
    : list (list string) :=
  match names with
  | [] => []
  | name :: rest =>
      if is_dots name then way_from (enter here name) rest
      else enter here name :: way_from (enter here name) rest
  end.

(** What there is at a place. *)
Inductive node (StateDict : Type) : Type :=
| Directory
| File (content : StateDict).
Arguments Directory {StateDict}.
Arguments File {StateDict} content.

(** The file system as far as the archive is concerned: the working
    directory of the process and what there is at each place, regular
    files holding what [torch.save] wrote.  It is a POSIX file system
    without symbolic links, in which the process may search and write
    every directory, names and paths are as long as one likes and space
    never runs out; the working directory and the places above it are
    directories and need no entry. *)
Record fs (StateDict : Type) : Type := Fs {
  cwd : list string;
  nodes : gmap (list string) (node StateDict)
}.
Arguments Fs {StateDict}.
Arguments cwd {StateDict}.
Arguments nodes {StateDict}.

Section Save.
Context {Model StateDict : Type}.
Variable state_dict : Model -> StateDict.

Local Abbreviation fs := (fs StateDict).

(** Where a path starts from: the root when it begins with a slash, the
    working directory otherwise. *)
Definition start (disk : fs) (s : string) : list string :=
  if starts_with_sep s then [] else cwd disk.

(** The place a path leads to. *)
Definition resolve (disk : fs) (s : string) : list string :=
  foldl enter (start disk s) (components s).

(** The places a path leads through, the last one included. *)
Definition way (disk : fs) (s : string) : list (list string) :=
  way_from (start disk s) (components s).

(** [os.makedirs(d, exist_ok = True)] from [here] on, [names] being what
    is left of [d]: a name that is not there is made a directory, one
    that is a directory is entered, and a regular file ends the call,
    with [FileExistsError] when it is the last name of the path ([mkdir]
    finds the name taken and [os.path.isdir] says no) and with
    [NotADirectoryError] when more names follow.  A name with a NUL
    character ends the call with [ValueError] when [mkdir] is to look at
    it: when the names before it are there, or next after a regular
    file.  The directories made before an exception stay. *)
Fixpoint makedirs_from (d : string) (here : list string) (names : list string)
    (disk : fs) : fs * result unit :=
  match names with
  | [] => (disk, Ret ())
  | name :: rest =>
      if has_nul name then (disk, Raise ValueError)
      else if is_dots name then makedirs_from d (enter here name) rest disk
      else
        match nodes disk !! enter here name with
        | Some (File _) =>
            (disk, Raise (match rest with
                          | [] => FileExistsError d
                          | next :: _ =>
                              if has_nul next then ValueError
                              else NotADirectoryError
                          end))
        | Some Directory => makedirs_from d (enter here name) rest disk
        | None =>
            makedirs_from d (enter here name) rest
              (Fs (cwd disk) (<[enter here name := Directory]> (nodes disk)))
        end
  end.

(** [os.makedirs(d, exist_ok = True)]: the disk afterwards and how the
    call ends. *)
Definition makedirs (d : string) (disk : fs) : fs * result unit :=
  if bool_decide (d = EmptyString) then (disk, Raise FileNotFoundError)
  else makedirs_from d (start disk d) (components d) disk.

(** Following names through directories that exist: where they lead, or
    [None] when one of them is no directory. *)
Fixpoint walk_dirs (disk : fs) (here : list string) (names : list string)
    : option (list string) :=
  match names with
  | [] => Some here
  | name :: rest =>
      if has_nul name then None
      else if is_dots name then walk_dirs disk (enter here name) rest
      else
        match nodes disk !! enter here name with
        | Some Directory => walk_dirs disk (enter here name) rest
        | _ => None
        end
  end.

(** What a path names: what there is at the place of its last name, the
    names before it leading through directories that exist. *)
Definition lookup_path (disk : fs) (s : string) : option (node StateDict) :=
  name ← last (components s);
  if has_nul name || is_dots name then None
  else
    directory ← walk_dirs disk (start disk s) (removelast (components s));
    nodes disk !! enter directory name.

(** The place of the file that opening [file_path] for writing creates
    or truncates, [None] when it cannot be opened: the names before the
    last have to lead through directories that exist, and the last has
    to be a name that no directory bears and that no slash follows. *)
Definition writable_file (file_path : string) (disk : fs)
    : option (list string) :=
  if has_nul file_path || ends_with_sep file_path then None
  else
    name ← last (components file_path);
    if is_dots name then None
    else
      directory ← walk_dirs disk (start disk file_path)
                    (removelast (components file_path));
      match nodes disk !! enter directory name with
      | Some Directory => None
      | _ => Some (enter directory name)
      end.

(** [torch.save(obj, file_path)]: the file holds [obj] afterwards.  When
    the file cannot be opened, the zip writer of torch 1.6 and later
    raises [RuntimeError] (earlier versions let the [OSError] of [open]
    through); [save_accepted_model] passes it no path with a NUL
    character, [os.makedirs] having raised before. *)
Definition torch_save (obj : StateDict) (file_path : string) (disk : fs)
    : fs * result unit :=
  match writable_file file_path disk with
  | Some place => (Fs (cwd disk) (<[place := File obj]> (nodes disk)), Ret ())
  | None => (disk, Raise RuntimeError)
  end.

(** The name of the directory and of the file [save_accepted_model]
    computes (lines 160-164 and 168). *)
Definition relative_dir (path : string) : string := "../../" +:+ path.
Definition file_name (now : struct_time) : string := strftime now +:+ ".pt".
Definition file_path (now : struct_time) (path : string) : string :=
  path_join (relative_dir path) (file_name now).

(** [save_accepted_model(path, model)] called when [time.gmtime()] is
    [now]: the disk afterwards and the value returned.  The body has no
    [return] statement, so the value of a call that completes is [None]. *)
Definition save_accepted_model (now : struct_time) (path : string)
    (model : Model) (disk : fs) : fs * result (option string) :=
  match makedirs (relative_dir path) disk with
  | (disk1, Raise e) => (disk1, Raise e)
  | (disk1, Ret _) =>
      match torch_save (state_dict model) (file_path now path) disk1 with
      | (disk2, Raise e) => (disk2, Raise e)
      | (disk2, Ret _) => (disk2, Ret None)
      end
  end.

(** The calls of [save_accepted_model] that the file system lets
    complete: no place the directory's path leads through is a regular
    file, and the place of the file is no directory, neither before the
    call nor by it. *)
Definition can_archive (now : struct_time) (path : string) (disk : fs) : Prop :=
  has_nul path = false
  /\ (forall place content,
        place ∈ way disk (relative_dir path) ->
        nodes disk !! place <> Some (File content))
  /\ (resolve disk (file_path now path) ∉ way disk (relative_dir path))
  /\ nodes disk !! resolve disk (file_path now path) <> Some Directory.

End Save.

(** Calendar order on [struct_time]. *)
Definition time_key (t : struct_time) : list Z :=
  [tm_year t; tm_mon t; tm_mday t; tm_hour t; tm_min t; tm_sec t].

Fixpoint lex_lt (k1 k2 : list Z) : Prop :=
  match k1, k2 with
  | a :: k1, b :: k2 => a < b \/ (a = b /\ lex_lt k1 k2)
  | _, _ => False
  end.

Definition time_lt (t1 t2 : struct_time) : Prop :=
  lex_lt (time_key t1) (time_key t2).

(** The fields [gmtime] fills in besides the year. *)
Definition gmtime_range (t : struct_time) : Prop :=
  1 <= tm_mon t <= 12 /\ 1 <= tm_mday t <= 31
  /\ 0 <= tm_hour t <= 23 /\ 0 <= tm_min t <= 59 /\ 0 <= tm_sec t <= 61.

(** The times [gmtime] returns when the year has four digits. *)
Definition valid_time (t : struct_time) : Prop :=
  1000 <= tm_year t <= 9999 /\ 1 <= tm_mon t <= 12 /\ 1 <= tm_mday t <= 31
  /\ 0 <= tm_hour t <= 23 /\ 0 <= tm_min t <= 59 /\ 0 <= tm_sec t <= 61.

End Archive.

(** ** [Evaluator.start]: the coordinator loop and the promotion barrier *)

Module Coordinator.

(** What [shared_variables] holds: integers (the two signals and the two
    counters) and the state dict of the accepted model. *)
Inductive value (StateDict : Type) : Type :=
| VInt (z : Z)
| VStateDict (sd : StateDict).
Arguments VInt {StateDict} z.
Arguments VStateDict {StateDict} sd.

(** The keys of [shared_variables] that [from common import *] brings in;
    [common] fixes their values, the evaluator only uses their names. *)
Record common (K : Type) : Type := Common {
  MODEL_STATE_DICT : K;
  SELF_PLAY_SIGNAL : K;
  TRAINING_SIGNAL : K;
  NUM_SELF_PLAY_WORKERS : K;
  NUM_TRAINING_WORKERS : K
}.
Arguments Common {K}.
Arguments MODEL_STATE_DICT {K}.
Arguments SELF_PLAY_SIGNAL {K}.
Arguments TRAINING_SIGNAL {K}.
Arguments NUM_SELF_PLAY_WORKERS {K}.
Arguments NUM_TRAINING_WORKERS {K}.

(** The five names stand for five different keys. *)
Definition distinct_keys {K : Type} (c : common K) : Prop :=
  NoDup [MODEL_STATE_DICT c; SELF_PLAY_SIGNAL c; TRAINING_SIGNAL c;
         NUM_SELF_PLAY_WORKERS c; NUM_TRAINING_WORKERS c].

(** The methods of [nn.Module] that [start] calls. *)
Record ModelOps (Model StateDict : Type) : Type := {
  state_dict : Model -> StateDict;
  load_state_dict : Model -> StateDict -> Model;
  to : Model -> Model
}.
Arguments state_dict {Model StateDict}.
Arguments load_state_dict {Model StateDict}.
Arguments to {Model StateDict}.

(** The statement of [start] the coordinator executes next, named by its
    line; the test of the [while] of line 71 reads the two counters one
    after the other. *)
Inductive label : Type :=
| L44_get
| L55_evaluate
| L57_load
| L60_publish
| L63_signal_self_play
| L64_signal_training
| L67_snapshot_self_play
| L68_snapshot_training
| L71_wait_self_play
| L71_wait_training
| L72_sleep
| L75_clear_self_play
| L76_clear_training
| L79_restore_self_play
| L80_restore_training
| L83_save
| Crashed (e : exn).

(** The coordinator's own variables, the shared dictionary, the queue of
    proposed models and the disk; and, of the workers, how many of each
    class have seen their signal set and have their decrement still to
    do. *)
Record state (Model StateDict K : Type) `{Countable K} : Type := State {
  pc : label;
  current_model : Model;
  new_model_candidate : option Model;
  num_self_play_workers : option (value StateDict);
  num_training_workers : option (value StateDict);
  shared_variables : gmap K (value StateDict);
  new_model_queue : list Model;
  disk : Archive.fs StateDict;
  self_play_reloading : nat;
  training_reloading : nat
}.
Arguments State {Model StateDict K _ _}.
Arguments pc {Model StateDict K _ _}.
Arguments current_model {Model StateDict K _ _}.
Arguments new_model_candidate {Model StateDict K _ _}.
Arguments num_self_play_workers {Model StateDict K _ _}.
Arguments num_training_workers {Model StateDict K _ _}.
Arguments shared_variables {Model StateDict K _ _}.
Arguments new_model_queue {Model StateDict K _ _}.
Arguments disk {Model StateDict K _ _}.
Arguments self_play_reloading {Model StateDict K _ _}.
Arguments training_reloading {Model StateDict K _ _}.

(** The two classes of workers. *)
Inductive worker_class : Type :=
| SelfPlay
| Training.

(** The steps of the program: a statement of the coordinator, or a step
    of a worker.  A worker looks at its signal at one moment
    ([...Observes]) and decrements its counter at a later one
    ([...Decrements]), the coordinator and the other workers running in
    between; [...Ack] is a worker that does both at once. *)
Inductive event (Model : Type) : Type :=
| CoordinatorStep (now : Archive.struct_time)
| SelfPlayWorkerAck
| TrainingWorkerAck
| TrainingWorkerProposes (m : Model)
| SelfPlayWorkerObserves
| SelfPlayWorkerDecrements
| TrainingWorkerObserves
| TrainingWorkerDecrements.
Arguments CoordinatorStep {Model} now.
Arguments SelfPlayWorkerAck {Model}.
Arguments TrainingWorkerAck {Model}.
Arguments TrainingWorkerProposes {Model} m.
Arguments SelfPlayWorkerObserves {Model}.
Arguments SelfPlayWorkerDecrements {Model}.
Arguments TrainingWorkerObserves {Model}.
Arguments TrainingWorkerDecrements {Model}.

Section Start.
Context {Model StateDict K : Type} `{Countable K}.
Variable ops : ModelOps Model StateDict.
Variable c : common K.
Variable play_game : Z -> Model -> Model -> Z.
Variable a : args.

Local Abbreviation state := (state Model StateDict K).

(** The coordinator moves on to statement [l]. *)
Definition goto (l : label) (st : state) : state :=
  State l (current_model st) (new_model_candidate st)
        (num_self_play_workers st) (num_training_workers st)
        (shared_variables st) (new_model_queue st) (disk st)
        (self_play_reloading st) (training_reloading st).

(** The shared dictionary replaced by [sv]. *)
Definition set_shared (sv : gmap K (value StateDict)) (st : state) : state :=
  State (pc st) (current_model st) (new_model_candidate st)
        (num_self_play_workers st) (num_training_workers st)
        sv (new_model_queue st) (disk st)
        (self_play_reloading st) (training_reloading st).

(** [self.shared_variables[key] = v]. *)
Definition assign (key : K) (v : value StateDict) (st : state) : state :=
  set_shared (<[key := v]> (shared_variables st)) st.

(** [self.shared_variables[key]]. *)
Definition read (key : K) (st : state) : result (value StateDict) :=
  match shared_variables st !! key with
  | Some v => Ret v
  | None => Raise KeyError
  end.

(** [v > 0]. *)
Definition gt_zero (v : value StateDict) : result bool :=
  match v with
  | VInt z => Ret (bool_decide (z > 0))
  | VStateDict _ => Raise TypeError
  end.

(** An exception nobody catches ends [start]. *)
Definition crash (e : exn) (st : state) : state := goto (Crashed e) st.

(** A local variable read; the name is unbound until first assigned. *)
Definition local {A : Type} (x : option A) (k : A -> state) (st : state) : state :=
  match x with
  | Some v => k v
  | None => crash UnboundLocalError st
  end.

(** One statement of [start], executed when [time.gmtime()] is [now]. *)
Definition coordinator_step (now : Archive.struct_time) (st : state) : state :=
  match pc st with
  | L44_get =>
      match new_model_queue st with
      | [] => st
      | m :: rest =>
          State L55_evaluate (current_model st) (Some (to ops m))
                (num_self_play_workers st) (num_training_workers st)
                (shared_variables st) rest (disk st)
                (self_play_reloading st) (training_reloading st)
      end
  | L55_evaluate =>
      local (new_model_candidate st) (fun candidate =>
        match Tournament.evaluate play_game a (current_model st) candidate with
        | Ret true => goto L57_load st
        | Ret false => goto L44_get st
        | Raise e => crash e st
        end) st
  | L57_load =>
      local (new_model_candidate st) (fun candidate =>
        State L60_publish
              (load_state_dict ops (current_model st) (state_dict ops candidate))
              (new_model_candidate st)
              (num_self_play_workers st) (num_training_workers st)
              (shared_variables st) (new_model_queue st) (disk st)
              (self_play_reloading st) (training_reloading st)) st
  | L60_publish =>
      local (new_model_candidate st) (fun candidate =>
        goto L63_signal_self_play
          (assign (MODEL_STATE_DICT c) (VStateDict (state_dict ops candidate)) st)) st
  | L63_signal_self_play =>
      goto L64_signal_training (assign (SELF_PLAY_SIGNAL c) (VInt 1) st)
  | L64_signal_training =>
      goto L67_snapshot_self_play (assign (TRAINING_SIGNAL c) (VInt 1) st)
  | L67_snapshot_self_play =>
      match read (NUM_SELF_PLAY_WORKERS c) st with
      | Ret v =>
          State L68_snapshot_training (current_model st) (new_model_candidate st)
                (Some v) (num_training_workers st)
                (shared_variables st) (new_model_queue st) (disk st)
                (self_play_reloading st) (training_reloading st)
      | Raise e => crash e st
      end
  | L68_snapshot_training =>
      match read (NUM_TRAINING_WORKERS c) st with
      | Ret v =>
          State L71_wait_self_play (current_model st) (new_model_candidate st)
                (num_self_play_workers st) (Some v)
                (shared_variables st) (new_model_queue st) (disk st)
                (self_play_reloading st) (training_reloading st)
      | Raise e => crash e st
      end
  | L71_wait_self_play =>
      match read (NUM_SELF_PLAY_WORKERS c) st ≫= gt_zero with
      | Ret true => goto L71_wait_training st
      | Ret false => goto L75_clear_self_play st
      | Raise e => crash e st
      end
  | L71_wait_training =>
      match read (NUM_TRAINING_WORKERS c) st ≫= gt_zero with
      | Ret true => goto L72_sleep st
      | Ret false => goto L75_clear_self_play st
      | Raise e => crash e st
      end
  | L72_sleep => goto L71_wait_self_play st
  | L75_clear_self_play =>
      goto L76_clear_training (assign (SELF_PLAY_SIGNAL c) (VInt 0) st)
  | L76_clear_training =>
      goto L79_restore_self_play (assign (TRAINING_SIGNAL c) (VInt 0) st)
  | L79_restore_self_play =>
      local (num_self_play_workers st) (fun v =>
        goto L80_restore_training (assign (NUM_SELF_PLAY_WORKERS c) v st)) st
  | L80_restore_training =>
      local (num_training_workers st) (fun v =>
        goto L83_save (assign (NUM_TRAINING_WORKERS c) v st)) st
  | L83_save =>
      local (new_model_candidate st) (fun candidate =>
        let '(disk', r) :=
          Archive.save_accepted_model (state_dict ops) now
            (accepted_model_path a) candidate (disk st) in
        State (match r with Ret _ => L44_get | Raise e => Crashed e end)
              (current_model st) (new_model_candidate st)
              (num_self_play_workers st) (num_training_workers st)
              (shared_variables st) (new_model_queue st) disk'
              (self_play_reloading st) (training_reloading st)) st
  | Crashed _ => st
  end.

(** The signal and the counter of a class of workers. *)
Definition signal_of (w : worker_class) : K :=
  match w with
  | SelfPlay => SELF_PLAY_SIGNAL c
  | Training => TRAINING_SIGNAL c
  end.

Definition counter_of (w : worker_class) : K :=
  match w with
  | SelfPlay => NUM_SELF_PLAY_WORKERS c
  | Training => NUM_TRAINING_WORKERS c
  end.

(** The workers of a class that have their decrement still to do. *)
Definition reloading (w : worker_class) (st : state) : nat :=
  match w with
  | SelfPlay => self_play_reloading st
  | Training => training_reloading st
  end.

Definition set_reloading (w : worker_class) (n : nat) (st : state) : state :=
  State (pc st) (current_model st) (new_model_candidate st)
        (num_self_play_workers st) (num_training_workers st)
        (shared_variables st) (new_model_queue st) (disk st)
        (match w with SelfPlay => n | Training => self_play_reloading st end)
        (match w with SelfPlay => training_reloading st | Training => n end).

(** Modelled from the spec: the workers, whose code is not part of the
    evaluator.  A worker that observes the signal of its class set
    reloads the model and decrements the pending counter of its class;
    a worker that does not observe it leaves the shared state alone.
    Here the worker does it all in one step. *)
Definition worker_ack (signal counter : K) (st : state) : state :=
  match shared_variables st !! signal, shared_variables st !! counter with
  | Some (VInt 1), Some (VInt n) => assign counter (VInt (n - 1)) st
  | _, _ => st
  end.

(** Modelled from the spec: a worker looks at the signal of its class
    and, finding it set, starts to reload the model; its decrement is
    still to come. *)
Definition worker_observes (w : worker_class) (st : state) : state :=
  match shared_variables st !! signal_of w with
  | Some (VInt 1) => set_reloading w (S (reloading w st)) st
  | _ => st
  end.

(** Modelled from the spec: a worker that has seen its signal set does
    its decrement, in one atomic step, whatever the signal is by now. *)
Definition worker_decrements (w : worker_class) (st : state) : state :=
  match reloading w st, shared_variables st !! counter_of w with
  | S n, Some (VInt k) =>
      set_reloading w n (assign (counter_of w) (VInt (k - 1)) st)
  | _, _ => st
  end.

(** Modelled from the spec: the training worker puts a candidate on the
    intake queue. *)
Definition propose (m : Model) (st : state) : state :=
  State (pc st) (current_model st) (new_model_candidate st)
        (num_self_play_workers st) (num_training_workers st)
        (shared_variables st) (new_model_queue st ++ [m]) (disk st)
        (self_play_reloading st) (training_reloading st).

(** One step of the whole program. *)
Definition system_step (st : state) (ev : event Model) : state :=
  match ev with
  | CoordinatorStep now => coordinator_step now st
  | SelfPlayWorkerAck =>
      worker_ack (SELF_PLAY_SIGNAL c) (NUM_SELF_PLAY_WORKERS c) st
  | TrainingWorkerAck =>
      worker_ack (TRAINING_SIGNAL c) (NUM_TRAINING_WORKERS c) st
  | TrainingWorkerProposes m => propose m st
  | SelfPlayWorkerObserves => worker_observes SelfPlay st
  | SelfPlayWorkerDecrements => worker_decrements SelfPlay st
  | TrainingWorkerObserves => worker_observes Training st
  | TrainingWorkerDecrements => worker_decrements Training st
  end.

(** The state after a sequence of events. *)
Definition run (st : state) (evs : list (event Model)) : state :=
  foldl system_step st evs.

(** The program starts at the top of the loop with both signals at 0 and
    the coordinator's locals unassigned. *)
Definition initial (st : state) : Prop :=
  pc st = L44_get
  /\ new_model_candidate st = None
  /\ num_self_play_workers st = None
  /\ num_training_workers st = None
  /\ shared_variables st !! SELF_PLAY_SIGNAL c = Some (VInt 0)
  /\ shared_variables st !! TRAINING_SIGNAL c = Some (VInt 0).

(** The states the program can be in. *)
Definition reachable (st : state) : Prop :=
  exists st0 evs, initial st0 /\ st = run st0 evs.

(** A signal flag is set. *)
Definition signal_set (key : K) (st : state) : Prop :=
  shared_variables st !! key = Some (VInt 1).

(** A signal flag is clear. *)
Definition signal_clear (key : K) (st : state) : Prop :=
  shared_variables st !! key = Some (VInt 0).

(** A counter is positive: a worker of that class has yet to acknowledge. *)
Definition pending (key : K) (st : state) : Prop :=
  exists n, shared_variables st !! key = Some (VInt n) /\ 0 < n.

(** The statements of the accept branch (lines 57-83). *)
Definition in_accept_branch (l : label) : bool :=
  match l with
  | L44_get | L55_evaluate | Crashed _ => false
  | _ => true
  end.

(** The shared slot holds the state dict of the candidate in hand. *)
Definition published (st : state) : Prop :=
  exists candidate,
    new_model_candidate st = Some candidate
    /\ shared_variables st !! MODEL_STATE_DICT c
       = Some (VStateDict (state_dict ops candidate)).

(** Both signals are clear. *)
Definition quiet (st : state) : Prop :=
  signal_clear (SELF_PLAY_SIGNAL c) st /\ signal_clear (TRAINING_SIGNAL c) st.

(** What holds of the signals and the shared slot at each statement of
    [start]. *)
Definition barrier_invariant (st : state) : Prop :=
  (signal_set (SELF_PLAY_SIGNAL c) st \/ signal_set (TRAINING_SIGNAL c) st ->
   published st)
  /\ match pc st with
     | L44_get | L55_evaluate | L57_load | L60_publish
     | L79_restore_self_play | L80_restore_training | L83_save =>
         quiet st
     | L63_signal_self_play =>
         quiet st /\ published st
     | L64_signal_training =>
         signal_set (SELF_PLAY_SIGNAL c) st
         /\ signal_clear (TRAINING_SIGNAL c) st
         /\ published st
     | L67_snapshot_self_play | L68_snapshot_training | L71_wait_self_play
     | L71_wait_training | L72_sleep | L75_clear_self_play =>
         signal_set (SELF_PLAY_SIGNAL c) st
         /\ signal_set (TRAINING_SIGNAL c) st
         /\ published st
     | L76_clear_training =>
         signal_clear (SELF_PLAY_SIGNAL c) st
         /\ signal_set (TRAINING_SIGNAL c) st
         /\ published st
     | Crashed _ => True
     end.

End Start.

End Coordinator.

(** ** Concrete collaborators, to run the definitions on *)

Module Examples.

Import Coordinator.

(** Twenty games to play and a threshold of 0.55. *)
Definition threshold_0_55 : spec_float := float_of_fraction 55 100.
Definition args20 : args := Args 20 threshold_0_55 5 "models".

(** Three games to play and the threshold written 0.33333333333333334. *)
Definition threshold_third : spec_float :=
  float_of_fraction 33333333333333334 100000000000000000.
Definition args3 : args := Args 3 threshold_third 5 "models".

(** Minus one game to play. *)
Definition args_minus_1 : args := Args (-1) threshold_0_55 5 "models".

(** Models are numbered; the state dict of a model is its number. *)
Definition ops : ModelOps Z Z :=
  {| state_dict := fun m => m; load_state_dict := fun _ sd => sd; to := fun m => m |}.

(** The model with the larger number wins every episode. *)
Definition stronger_wins (i first second : Z) : Z :=
  if bool_decide (second < first) then 1 else -1.

(** The candidate wins the first [w] games and loses the others. *)
Definition wins_first (w : Z) (n : Z) (i : Z) (first second : Z) : Z :=
  if bool_decide (i < w)
  then (if bool_decide (i < n `div` 2) then -1 else 1)
  else (if bool_decide (i < n `div` 2) then 1 else -1).

(** String keys for the shared dictionary. *)
Definition keys : common string :=
  Common "model_state_dict" "self_play_signal" "training_signal"
         "num_self_play_workers" "num_training_workers".

(** The directory the program is started in. *)
Definition repository : list string := ["home"; "alphazero"; "src"; "alphazero"].

(** A disk on which nothing has been archived: [../../models] is not
    there. *)
Definition empty_disk : Archive.fs Z := Archive.Fs repository ∅.

(** Two self-play workers and one training worker, model 0 in use, model 1
    proposed, nothing archived yet. *)
Definition start_state : state Z Z string :=
  State L44_get 0 None None None
        (<["model_state_dict" := VStateDict 0]>
          (<["self_play_signal" := VInt 0]>
            (<["training_signal" := VInt 0]>
              (<["num_self_play_workers" := VInt 2]>
                (<["num_training_workers" := VInt 1]> ∅)))))
        [1]
        empty_disk 0 0.

Definition noon : Archive.struct_time := Archive.StructTime 2024 3 9 12 0 5.

(** The coordinator accepts model 1 and raises the signals, the two
    self-play workers acknowledge, the training worker does not, and the
    coordinator goes on. *)
Definition self_play_acks_only : list (event Z) :=
  replicate 8 (CoordinatorStep noon)
  ++ [SelfPlayWorkerAck; SelfPlayWorkerAck]
  ++ replicate 3 (CoordinatorStep noon).

(** The same, up to the end of the accept branch. *)
Definition whole_promotion : list (event Z) :=
  self_play_acks_only ++ replicate 3 (CoordinatorStep noon).

(** The same program with nothing on the queue. *)
Definition idle_state : state Z Z string :=
  State L44_get 0 None None None (shared_variables start_state) []
        empty_disk 0 0.

(** Every episode is a draw. *)
Definition all_draws (i first second : Z) : Z := 0.

(** The coordinator has taken model 1 from the queue and is about to
    evaluate it. *)
Definition evaluating_state : state Z Z string :=
  coordinator_step ops keys all_draws args20 noon start_state.

(** The coordinator has accepted model 1, published it and set the
    self-play signal. *)
Definition signalled_state : state Z Z string :=
  run ops keys stronger_wins args20 start_state (replicate 5 (CoordinatorStep noon)).

(** The state after the whole promotion. *)
Definition promoted_state : state Z Z string :=
  run ops keys stronger_wins args20 start_state whole_promotion.

(** The first eight statements of a promotion: the coordinator has set
    the signals and read the two counters, and is about to wait. *)
Definition up_to_the_wait : list (event Z) :=
  replicate 8 (CoordinatorStep noon).

(** A promotion in which the training worker is slow: it sees its signal
    set and starts to reload; the two self-play workers acknowledge and
    the coordinator leaves the wait loop, clears the signals and restores
    the counters (lines 71-80); only then does the training worker
    decrement its counter. *)
Definition to_the_restore : list (event Z) :=
  up_to_the_wait
  ++ [TrainingWorkerObserves; SelfPlayWorkerAck; SelfPlayWorkerAck]
  ++ replicate 5 (CoordinatorStep noon).

Definition late_decrement : list (event Z) :=
  to_the_restore ++ [TrainingWorkerDecrements; CoordinatorStep noon].

(** The states of that promotion at the wait loop, once the counters
    are restored, and at its end. *)
Definition at_the_wait : state Z Z string :=
  run ops keys stronger_wins args20 start_state up_to_the_wait.
Definition after_the_restore : state Z Z string :=
  run ops keys stronger_wins args20 start_state to_the_restore.
Definition after_the_late_decrement : state Z Z string :=
  run ops keys stronger_wins args20 start_state late_decrement.

(** A promotion in which a self-play worker is quick: it acknowledges
    between the assignment of line 63 and the read of line 67. *)
Definition early_ack : list (event Z) :=
  replicate 6 (CoordinatorStep noon)
  ++ [SelfPlayWorkerAck]
  ++ replicate 2 (CoordinatorStep noon)
  ++ [SelfPlayWorkerAck; TrainingWorkerAck]
  ++ replicate 6 (CoordinatorStep noon).

Definition after_the_early_ack : state Z Z string :=
  run ops keys stronger_wins args20 start_state early_ack.

(** A game of taking one to three sticks from a heap of five; the board is
    what is left of the heap and whose turn it is does not matter for the
    rules.  Actions are numbers of sticks. *)
Definition sticks : Episode.Game Z Z :=
  {| Episode.getInitBoard := 5;
     Episode.getGameEnded := fun b => bool_decide (b <= 0);
     Episode.checkIfValid := fun b act => bool_decide (1 <= act <= 3 /\ act <= b);
     Episode.getNextState := fun b act =>
       match act with Some n => b - n | None => b end;
     Episode.getResult := fun b => if bool_decide (b = 0) then "1-0" else "0-1" |}.

Definition identity_board : Episode.BoardTranslator Z Z :=
  {| Episode.encode := fun b => b |}.

(** An encoding whose indices 0, 1 and 2 decode to taking 7, 8 or 9
    sticks, which the rules never allow. *)
Definition broken_moves : Episode.MoveTranslator Z :=
  {| Episode.decode := fun index => index + 7 |}.

(** A sound encoding: index [i] is taking [i + 1] sticks. *)
Definition sound_moves : Episode.MoveTranslator Z :=
  {| Episode.decode := fun index => index + 1 |}.

(** A network that always ranks index 1 before index 0 (and then 2). *)
Definition fixed_net : Episode.Network Z Z (list Z) Z :=
  {| Episode.forward := fun _ _ => ([1; 0; 2], 0);
     Episode.argsort_descending := fun policy => policy |}.

End Examples.

(** ** An episode turn by turn *)

Module Turns.

Import Episode.

Section Turns.
Context {Board Action Tensor Policy Value Model : Type}.
Variable game : Game Board Action.
Variable board_translator : BoardTranslator Board Tensor.
Variable move_translator : MoveTranslator Action.
Variable net : Network Model Tensor Policy Value.

(** Who is to move at turn [k], turns counted from 0: the first player
    at the even turns, the second player at the odd ones. *)
Definition mover (first_player second_player : Model) (k : nat) : Model :=
  if Nat.even k then first_player else second_player.

(** The board after [k] turns of an episode between two players. *)
Fixpoint board_at (first_player second_player : Model) (k : nat) : Board :=
  match k with
  | O => getInitBoard game
  | S j =>
      play_turn game board_translator move_translator net
        (board_at first_player second_player j)
        (mover first_player second_player j)
  end.

(** The board [k] turns after [board], when [current_player] is to move
    on [board]. *)
Fixpoint board_from (board : Board) (current_player next_player : Model)
    (k : nat) : Board :=
  match k with
  | O => board
  | S j =>
      board_from
        (play_turn game board_translator move_translator net board current_player)
        next_player current_player j
  end.

End Turns.

End Turns.

(** ** What the coordinator has accepted so far *)

Module History.

Import Coordinator.

Section History.
Context {Model StateDict K : Type} `{Countable K}.
Variable ops : ModelOps Model StateDict.
Variable c : common K.
Variable play_game : Z -> Model -> Model -> Z.
Variable a : args.

Local Abbreviation state := (state Model StateDict K).

(** The coordinator accepted [candidate] in the course of [evs]: at some
    moment of the run it executed line 55 with the candidate in hand, and
    [evaluate] returned true for the candidate against the model the
    coordinator held at that moment. *)
Definition accepted (st0 : state) (evs : list (event Model))
    (candidate : Model) : Prop :=
  exists before now after,
    evs = before ++ CoordinatorStep now :: after
    /\ pc (run ops c play_game a st0 before) = L55_evaluate
    /\ new_model_candidate (run ops c play_game a st0 before) = Some candidate
    /\ Tournament.evaluate play_game a
         (current_model (run ops c play_game a st0 before)) candidate
       = Ret true.

(** After [evs] the shared slot holds what it held in [st0] or the state
    dict of a candidate accepted in the course of [evs]. *)
Definition slot_from_accepted (st0 : state) (evs : list (event Model)) : Prop :=
  shared_variables (run ops c play_game a st0 evs) !! MODEL_STATE_DICT c
  = shared_variables st0 !! MODEL_STATE_DICT c
  \/ exists candidate,
       accepted st0 evs candidate
       /\ shared_variables (run ops c play_game a st0 evs) !! MODEL_STATE_DICT c
          = Some (VStateDict (state_dict ops candidate)).

(** After [evs] every file on the disk was there in [st0], with the same
    content, or holds the state dict of a candidate accepted in the
    course of [evs]. *)
Definition files_from_accepted (st0 : state) (evs : list (event Model)) : Prop :=
  forall place sd,
    Archive.nodes (disk (run ops c play_game a st0 evs)) !! place
    = Some (Archive.File sd) ->
    Archive.nodes (disk st0) !! place = Some (Archive.File sd)
    \/ exists candidate, accepted st0 evs candidate /\ sd = state_dict ops candidate.

(** What holds of a state [st] that the program has reached from [st0],
    [was_accepted] being the candidates accepted on the way: in the
    accept branch the candidate in hand is one of them, and so is
    whatever has come into the shared slot or into a file. *)
Definition history_invariant (was_accepted : Model -> Prop)
    (st0 st : state) : Prop :=
  (in_accept_branch (pc st) = true ->
   exists candidate,
     new_model_candidate st = Some candidate /\ was_accepted candidate)
  /\ (shared_variables st !! MODEL_STATE_DICT c
      = shared_variables st0 !! MODEL_STATE_DICT c
      \/ exists candidate,
           was_accepted candidate
           /\ shared_variables st !! MODEL_STATE_DICT c
              = Some (VStateDict (state_dict ops candidate)))
  /\ (forall place sd,
        Archive.nodes (disk st) !! place = Some (Archive.File sd) ->
        Archive.nodes (disk st0) !! place = Some (Archive.File sd)
        \/ exists candidate,
             was_accepted candidate /\ sd = state_dict ops candidate).

(** The shared slot holds the state dict of the coordinator's own model. *)
Definition slot_is_current (st : state) : Prop :=
  shared_variables st !! MODEL_STATE_DICT c
  = Some (VStateDict (state_dict ops (current_model st))).

(** Where the shared slot and the coordinator's model agree: everywhere
    but between the load of line 57 and the assignment of line 60, and,
    between promotions, as soon as they agreed at the start or a promotion
    has taken place. *)
Definition agreement_invariant (st0 st : state) : Prop :=
  match pc st with
  | L44_get | L55_evaluate | L57_load =>
      slot_is_current st0 \/ is_Some (num_self_play_workers st) ->
      slot_is_current st
  | L60_publish =>
      exists candidate,
        new_model_candidate st = Some candidate
        /\ state_dict ops (current_model st) = state_dict ops candidate
  | Crashed _ => True
  | _ => slot_is_current st
  end.

(** The events in which no worker decrements a counter. *)
Definition no_ack (ev : event Model) : bool :=
  match ev with
  | SelfPlayWorkerAck | TrainingWorkerAck
  | SelfPlayWorkerDecrements | TrainingWorkerDecrements => false
  | _ => true
  end.

(** The three statements of the wait loop. *)
Definition waiting (l : label) : bool :=
  match l with
  | L71_wait_self_play | L71_wait_training | L72_sleep => true
  | _ => false
  end.

End History.

End History.

(** ** The checks of the board translator's tests
    (tests/src/alphazero/game/chess/test_chess_board_translator.py) *)

Module BoardTests.

(** How a check ends. *)
Inductive outcome : Type :=
| Passed
| AssertionError
| IndexError.

(** [l[i]] for a non-negative or negative Python index. *)
Definition index {A : Type} (l : list A) (i : Z) : option A :=
  if bool_decide (0 <= i) then l !! Z.to_nat i
  else if bool_decide (- Z.of_nat (length l) <= i)
       then l !! Z.to_nat (Z.of_nat (length l) + i)
       else None.

(** The planes the two checks look at, in the order of the assertions,
    each with the sum it must have: pawns, knights, bishops, rooks, king
    and queen of one side (planes 0 to 5) and of the other (6 to 11). *)
Definition expected_sums : list (Z * Z) :=
  [(0, 8); (6, 8); (1, 2); (7, 2); (2, 2); (8, 2);
   (3, 2); (9, 2); (4, 1); (10, 1); (5, 1); (11, 1)].

Section Asserts.
Context {Plane : Type}.

(** [torch.sum(plane) == k] as the truth value [assert] sees. *)
Variable sum_is : Plane -> Z -> bool.

(** The assertions one after the other: the first one that fails, or
    whose plane is out of range, ends the check. *)
Fixpoint run_asserts (plane_of : Z -> option Plane) (todo : list (Z * Z))
    : outcome :=
  match todo with
  | [] => Passed
  | (k, expected) :: rest =>
      match plane_of k with
      | None => IndexError
      | Some plane =>
          if sum_is plane expected then run_asserts plane_of rest
          else AssertionError
      end
  end.

(** [assert_board_state_pre_view(tensor, i)]: the tensor is indexed by
    time step, then by plane. *)
Definition assert_board_state_pre_view (tensor : list (list Plane)) (i : Z)
    : outcome :=
  run_asserts (fun k => index tensor i ≫= fun board => index board k)
              expected_sums.

(** [assert_board_state_post_view(tensor, i)]: the tensor is indexed by
    plane, fourteen planes to a time step. *)
Definition assert_board_state_post_view (tensor : list Plane) (i : Z)
    : outcome :=
  run_asserts (fun k => index tensor (14 * i + k)) expected_sums.

End Asserts.

End BoardTests.

(** ** More concrete inputs *)

Module MoreExamples.

Import Coordinator.

(** A program whose shared dictionary has no counters. *)
Definition bare_state : state Z Z string :=
  State L44_get 0 None None None
        (<["model_state_dict" := VStateDict 0]>
          (<["self_play_signal" := VInt 0]>
            (<["training_signal" := VInt 0]> ∅)))
        [1]
        Examples.empty_disk 0 0.

(** The coordinator of [bare_state] about to take its first snapshot. *)
Definition bare_snapshot : list (event Z) :=
  replicate 6 (CoordinatorStep Examples.noon).

(** No game to play. *)
Definition args0 : args := Args 0 Examples.threshold_0_55 5 "models".

(** The coordinator of [bare_state] at line 67. *)
Definition at_snapshot : state Z Z string :=
  run Examples.ops Examples.keys Examples.stronger_wins Examples.args20
      bare_state bare_snapshot.

(** The coordinator that has no game to play, about to evaluate model 1. *)
Definition doomed_state : state Z Z string :=
  coordinator_step Examples.ops Examples.keys Examples.stronger_wins args0
    Examples.noon Examples.start_state.

(** The coordinator of [Examples.start_state] in the wait loop, nobody
    having acknowledged. *)
Definition waiting_state : state Z Z string :=
  run Examples.ops Examples.keys Examples.stronger_wins Examples.args20
      Examples.start_state (replicate 8 (CoordinatorStep Examples.noon)).

(** A disk on which [../../models] is a regular file. *)
Definition blocked_disk : Archive.fs Z :=
  Archive.Fs Examples.repository
    {[ ["home"; "alphazero"; "models"] := Archive.File 7 ]}.

(** The coordinator about to archive model 1 on that disk. *)
Definition blocked_state : state Z Z string :=
  State L83_save 1 (Some 1) (Some (VInt 2)) (Some (VInt 1))
        (shared_variables Examples.promoted_state) []
        blocked_disk 0 0.

(** A disk on which [../../models] is a directory that holds a file. *)
Definition used_disk : Archive.fs Z :=
  Archive.Fs Examples.repository
    (<[ ["home"; "alphazero"; "models"] := Archive.Directory ]>
       {[ ["home"; "alphazero"; "models"; "2023-12-31_23-59-59.pt"]
          := Archive.File 0 ]}).

(** One second after [Examples.noon]. *)
Definition a_second_later : Archive.struct_time :=
  Archive.StructTime 2024 3 9 12 0 6.

(** A history of two time steps of fourteen planes each, a plane being
    the list of its entries; the first twelve planes of each time step
    hold as many ones as the chess pieces of their kind. *)
Definition ones (n : nat) : list Z := replicate n 1.
Definition pieces : list (list Z) :=
  [ones 8; ones 2; ones 2; ones 2; ones 1; ones 1;
   ones 8; ones 2; ones 2; ones 2; ones 1; ones 1; []; []].
Definition history : list (list (list Z)) := [pieces; pieces].

(** [torch.sum(plane) == k] on planes of integers. *)
Definition sum_is (plane : list Z) (k : Z) : bool :=
  bool_decide (foldr Z.add 0 plane = k).

End MoreExamples.

(** * Properties *)

(** ** Binary64 division of game counts *)

Section FloatFacts.

(** Shifting a mantissa right keeps it non-negative and does not make it
    larger. *)
Lemma shr_1_bounds (mrs : shr_record) :
  0 <= shr_m mrs -> 0 <= shr_m (shr_1 mrs) <= shr_m mrs.
Proof.
  destruct mrs as [m r s]. simpl. intros Hm.
  destruct m as [|p|p]; [simpl; lia| |lia].
  destruct p; simpl; lia.
Qed.

Lemma iter_shr_1_bounds (p : positive) (mrs : shr_record) :
  0 <= shr_m mrs -> 0 <= shr_m (SpecFloat.iter_pos shr_1 p mrs) <= shr_m mrs.
Proof.
  revert mrs. induction p as [p IH|p IH|]; intros mrs Hm; simpl.
  - pose proof (shr_1_bounds mrs Hm) as H1.
    pose proof (IH (shr_1 mrs) ltac:(lia)) as H2.
    pose proof (IH (SpecFloat.iter_pos shr_1 p (shr_1 mrs)) ltac:(lia)) as H3.
    lia.
  - pose proof (IH mrs Hm) as H2.
    pose proof (IH (SpecFloat.iter_pos shr_1 p mrs) ltac:(lia)) as H3.
    lia.
  - apply shr_1_bounds, Hm.
Qed.

Lemma shr_fexp_bounds (m e : Z) (l : location) :
  0 <= m -> 0 <= shr_m (shr_fexp prec emax m e l).1 <= m.
Proof.
  intros Hm. unfold shr_fexp, shr.
  assert (H0 : shr_m (shr_record_of_loc m l) = m)
    by (destruct l as [|[| |]]; reflexivity).
  destruct (fexp prec emax (Zdigits2 m + e) - e) as [|p|p]; simpl;
    try (rewrite H0; lia).
  pose proof (iter_shr_1_bounds p (shr_record_of_loc m l) ltac:(lia)). lia.
Qed.

(** The exponent after the shift. *)
Lemma shr_fexp_exponent (m e : Z) (l : location) :
  (shr_fexp prec emax m e l).2 = Z.max e (fexp prec emax (Zdigits2 m + e)).
Proof.
  unfold shr_fexp, shr.
  destruct (fexp prec emax (Zdigits2 m + e) - e) as [|p|p] eqn:Hd; simpl; lia.
Qed.

Lemma round_nearest_even_bounds (m : Z) (l : location) :
  0 <= m -> m <= round_nearest_even m l <= m + 1.
Proof.
  intros Hm. destruct l as [|[| |]]; simpl; try lia.
  destruct (Z.even m); lia.
Qed.

(** Rounding a non-negative mantissa never gives a NaN. *)
Lemma binary_round_aux_not_nan (sx : bool) (mx ex : Z) (lx : location) :
  0 <= mx -> binary_round_aux prec emax sx mx ex lx <> S754_nan.
Proof.
  intros Hm. unfold binary_round_aux.
  pose proof (shr_fexp_bounds mx ex lx Hm) as H1.
  destruct (shr_fexp prec emax mx ex lx) as [mrs' e']. simpl in H1.
  pose proof (round_nearest_even_bounds (shr_m mrs') (loc_of_shr_record mrs')
                ltac:(lia)) as Hr.
  pose proof (shr_fexp_bounds
                (round_nearest_even (shr_m mrs') (loc_of_shr_record mrs'))
                e' loc_Exact ltac:(lia)) as H2.
  destruct (shr_fexp prec emax _ e' loc_Exact) as [mrs'' e'']. simpl in H2.
  destruct (shr_m mrs'') as [|m|m]; [discriminate| |lia].
  destruct (e'' <=? emax - prec); discriminate.
Qed.

(** Neither does the quotient of two finite numbers. *)
Lemma SFdiv_finite_not_nan (sx sy : bool) (mx my : positive) (ex ey : Z) :
  SFdiv prec emax (S754_finite sx mx ex) (S754_finite sy my ey) <> S754_nan.
Proof.
  unfold SFdiv, SFdiv_core_binary.
  set (m' := match _ - _ - _ with Z.pos _ => _ | 0 => _ | Z.neg _ => _ end).
  assert (Hm' : 0 <= m').
  { subst m'. destruct (_ - _ - _) as [|s|s]; try lia.
    apply Z.shiftl_nonneg. lia. }
  pose proof (Z_div_mod m' (Z.pos my) ltac:(lia)) as Hdiv.
  destruct (Z.div_eucl m' (Z.pos my)) as [q r].
  apply binary_round_aux_not_nan. nia.
Qed.

(** The number of binary digits of a positive number. *)
Lemma digits2_pos_lower (m : positive) :
  2 ^ (Z.pos (digits2_pos m) - 1) <= Z.pos m.
Proof.
  induction m as [m IH|m IH|]; simpl digits2_pos; [| |simpl; lia].
  - rewrite Pos2Z.inj_succ.
    replace (Z.succ (Z.pos (digits2_pos m)) - 1)
      with (Z.succ (Z.pos (digits2_pos m) - 1)) by lia.
    rewrite Z.pow_succ_r by lia. lia.
  - rewrite Pos2Z.inj_succ.
    replace (Z.succ (Z.pos (digits2_pos m)) - 1)
      with (Z.succ (Z.pos (digits2_pos m) - 1)) by lia.
    rewrite Z.pow_succ_r by lia. lia.
Qed.

Lemma digits2_pos_upper (m : positive) :
  Z.pos m < 2 ^ Z.pos (digits2_pos m).
Proof.
  induction m as [m IH|m IH|]; simpl digits2_pos; [| |simpl; lia].
  - rewrite Pos2Z.inj_succ, Z.pow_succ_r by lia. lia.
  - rewrite Pos2Z.inj_succ, Z.pow_succ_r by lia. lia.
Qed.

(** A number below [2^k] has at most [k] digits. *)
Lemma Zdigits2_bound (m k : Z) :
  0 <= k -> 0 <= m < 2 ^ k -> Zdigits2 m <= k.
Proof.
  intros Hk Hm. destruct m as [|p|p]; [simpl; lia| |lia].
  simpl. destruct (Z.le_gt_cases (Z.pos (digits2_pos p)) k) as [Hle|Hgt];
    [exact Hle|exfalso].
  pose proof (digits2_pos_lower p) as Hlow.
  assert (Hpow : 2 ^ k <= 2 ^ (Z.pos (digits2_pos p) - 1))
    by (apply Z.pow_le_mono_r; lia).
  lia.
Qed.

(** The smaller number has no more digits. *)
Lemma digits2_pos_mono (p q : positive) :
  Z.pos p <= Z.pos q -> Z.pos (digits2_pos p) <= Z.pos (digits2_pos q).
Proof.
  intros Hpq.
  apply (Zdigits2_bound (Z.pos p) (Z.pos (digits2_pos q))); [lia|].
  pose proof (digits2_pos_upper q). lia.
Qed.

(** Rounding [m * 2^e] stays within the floats when [m <= 2^(-e)] and
    [e] is an exponent of the quotient of a number by a larger one. *)
Lemma binary_round_aux_small (sx : bool) (m e : Z) (l : location) :
  -1074 <= e <= -53 -> 0 <= m <= 2 ^ (- e) ->
  forall s, binary_round_aux prec emax sx m e l <> S754_infinity s.
Proof.
  intros He Hm s. unfold binary_round_aux.
  pose proof (shr_fexp_bounds m e l ltac:(lia)) as H1.
  pose proof (shr_fexp_exponent m e l) as E1.
  destruct (shr_fexp prec emax m e l) as [mrs' e1]. cbn [fst snd] in H1, E1.
  pose proof (round_nearest_even_bounds (shr_m mrs') (loc_of_shr_record mrs')
                ltac:(lia)) as Hr.
  set (m1 := round_nearest_even (shr_m mrs') (loc_of_shr_record mrs')) in *.
  pose proof (shr_fexp_bounds m1 e1 loc_Exact ltac:(lia)) as H2.
  pose proof (shr_fexp_exponent m1 e1 loc_Exact) as E2.
  destruct (shr_fexp prec emax m1 e1 loc_Exact) as [mrs'' e2].
  cbn [fst snd] in H2, E2.
  assert (Hpow : 2 ^ (- e) < 2 ^ (- e + 1)).
  { rewrite Z.pow_add_r by lia. pose proof (Z.pow_pos_nonneg 2 (- e)). lia. }
  assert (Hpow1 : 2 <= 2 ^ (- e)).
  { change 2 with (2 ^ 1) at 1. apply Z.pow_le_mono_r; lia. }
  assert (Hd : Zdigits2 m <= - e + 1) by (apply Zdigits2_bound; lia).
  assert (Hd1 : Zdigits2 m1 <= - e + 1).
  { apply Zdigits2_bound; [lia|]. rewrite Z.pow_add_r by lia. lia. }
  assert (He1 : e1 <= -52).
  { rewrite E1. unfold fexp, emin, prec, emax. lia. }
  assert (He1' : e <= e1) by lia.
  assert (He2 : e2 <= 971).
  { rewrite E2. unfold fexp, emin, prec, emax. lia. }
  destruct (shr_m mrs'') as [|p|p]; try discriminate.
  assert (Hle : (e2 <=? emax - prec) = true)
    by (apply Z.leb_le; unfold emax, prec; lia).
  rewrite Hle. discriminate.
Qed.

(** The quotient of a number by a larger one is a float: the division
    of the win count by the number of games does not overflow. *)
Lemma rounded_quotient_small (w n : Z) :
  0 <= w <= n -> 1 <= n ->
  rounded_quotient w n <> S754_nan
  /\ forall s, rounded_quotient w n <> S754_infinity s.
Proof.
  intros Hw Hn. unfold rounded_quotient.
  destruct n as [|pn|pn]; try lia.
  destruct w as [|pw|pw]; try lia.
  { split; [discriminate|intros s; discriminate]. }
  split; [apply SFdiv_finite_not_nan|].
  intros s. cbn [exact_of_int]. unfold SFdiv, SFdiv_core_binary.
  pose proof (digits2_pos_mono pw pn ltac:(lia)) as Hd.
  cbn [Zdigits2].
  set (e' := Z.min (fexp prec emax
                      (Z.pos (digits2_pos pw) + 0 - (Z.pos (digits2_pos pn) + 0)))
                   (0 - 0)).
  assert (He' : -1074 <= e' <= -53).
  { subst e'. unfold fexp, emin, prec, emax. lia. }
  destruct (0 - 0 - e') as [|sh|sh] eqn:Hsh; try lia.
  rewrite Z.shiftl_mul_pow2 by lia.
  pose proof (Z_div_mod (Z.pos pw * 2 ^ Z.pos sh) (Z.pos pn) ltac:(lia)) as Hdiv.
  destruct (Z.div_eucl (Z.pos pw * 2 ^ Z.pos sh) (Z.pos pn)) as [q r].
  destruct Hdiv as [Heq Hr].
  assert (Hpos : 0 < 2 ^ Z.pos sh) by (apply Z.pow_pos_nonneg; lia).
  apply binary_round_aux_small; [exact He'|].
  replace (- e') with (Z.pos sh) by lia.
  split; nia.
Qed.

(** A float that is not a NaN is [>=] itself. *)
Lemma float_ge_refl (x : spec_float) : x <> S754_nan -> float_ge x x = true.
Proof.
  intros Hx. unfold float_ge, SFleb, SFcompare.
  destruct x as [s|s| |s m e]; [reflexivity|destruct s; reflexivity|contradiction|].
  rewrite Z.compare_refl, Pos.compare_cont_refl. destruct s; reflexivity.
Qed.

(** Dividing a win count by the number of games raises nothing. *)
Lemma truediv_small (w n : Z) :
  0 <= w <= n -> 1 <= n -> truediv w n = Ret (rounded_quotient w n).
Proof.
  intros Hw Hn. unfold truediv.
  destruct (decide (n = 0)) as [H0|_]; [lia|].
  destruct (rounded_quotient_small w n Hw Hn) as [_ Hinf].
  destruct (rounded_quotient w n) as [s|s| |s m e]; try reflexivity.
  exfalso. exact (Hinf s eq_refl).
Qed.

(** Neither does dividing zero by a number that is not zero. *)
Lemma truediv_zero (n : Z) :
  n <> 0 -> truediv 0 n = Ret (S754_zero (bool_decide (n < 0))).
Proof.
  intros Hn. unfold truediv.
  destruct (decide (n = 0)) as [H0|_]; [contradiction|].
  destruct n as [|p|p]; [contradiction| |]; reflexivity.
Qed.

(** Out of 20 games and at the threshold 0.55 the float comparison decides
    as the comparison of the fractions w/20 and 55/100 does. *)
Lemma accept_20_at_0_55 (w : Z) :
  0 <= w <= 20 ->
  float_ge (rounded_quotient w 20) Examples.threshold_0_55
  = Exact.ge_fraction w 20 55 100.
Proof.
  intros Hw.
  assert (Hin : w ∈ range 21).
  { unfold range. apply list_elem_of_fmap. exists (Z.to_nat w).
    split; [lia|]. apply elem_of_seq. lia. }
  revert w Hin Hw. apply (Forall_forall (fun w => _ -> _)).
  repeat (apply Forall_cons; split; [intros _; vm_compute; reflexivity|]).
  apply Forall_nil. trivial.
Qed.

End FloatFacts.



(** ** The tournament *)

Section TournamentFacts.
Import Tournament.
Context {Model : Type}.
Variable play_game : Z -> Model -> Model -> Z.

(** [range] grows at its end. *)
Lemma range_succ (k : nat) :
  range (Z.of_nat (S k)) = range (Z.of_nat k) ++ [Z.of_nat k].
Proof.
  unfold range. rewrite !Nat2Z.id, seq_S, fmap_app. reflexivity.
Qed.

Lemma range_length (n : Z) : 0 <= n -> Z.of_nat (length (range n)) = n.
Proof.
  intros Hn. unfold range. rewrite length_fmap, length_seq. lia.
Qed.

Lemma elem_of_range (n i : Z) : i ∈ range n <-> 0 <= i < n.
Proof.
  unfold range. rewrite list_elem_of_fmap. split.
  - intros (k & -> & Hk). apply elem_of_seq in Hk. lia.
  - intros Hi. exists (Z.to_nat i). split; [lia|]. apply elem_of_seq. lia.
Qed.

(** The test of line 106 says what the description of the scoring says. *)
Lemma new_model_won_spec (h i r : Z) :
  new_model_won h i r = bool_decide ((i < h /\ r = -1) \/ (h <= i /\ r = 1)).
Proof.
  unfold new_model_won.
  repeat case_bool_decide; simpl; try reflexivity; lia.
Qed.

Lemma count_wins_snoc (log : list (episode Model)) (e : episode Model) :
  count_wins (log ++ [e])
  = if counted_win e then count_wins log + 1 else count_wins log.
Proof.
  unfold count_wins. rewrite filter_app, length_app.
  destruct (counted_win e) eqn:He.
  - rewrite filter_cons_True by (simpl; congruence). simpl. lia.
  - rewrite filter_cons_False by (simpl; congruence). simpl. lia.
Qed.

(** One iteration takes the described state after k games to the
    described state after k+1 games: the swap of line 98 happens once, at
    the halfway point. *)
Lemma evaluate_step_after_games (n : Z) (current_model new_model : Model) (k : nat) :
  0 <= n `div` 2 ->
  evaluate_step play_game (n `div` 2)
    (after_games play_game n current_model new_model k) (Z.of_nat k)
  = after_games play_game n current_model new_model (S k).
Proof.
  intros Hh. unfold after_games.
  rewrite range_succ, fmap_app, list_fmap_singleton, count_wins_snoc.
  set (log := expected_episode play_game n current_model new_model
                <$> range (Z.of_nat k)).
  unfold evaluate_step, expected_episode.
  cbn [first_player second_player num_wins played counted_win].
  rewrite <- new_model_won_spec.
  repeat case_bool_decide; try lia; reflexivity.
Qed.

Lemma evaluate_loop_invariant (n : Z) (current_model new_model : Model) (k : nat) :
  0 <= n ->
  foldl (evaluate_step play_game (n `div` 2))
        (LoopState 0 current_model new_model []) (range (Z.of_nat k))
  = after_games play_game n current_model new_model k.
Proof.
  intros Hn.
  assert (Hh : 0 <= n `div` 2) by (apply Z.div_pos; lia).
  induction k as [|k IH].
  - unfold after_games. simpl. rewrite bool_decide_eq_false_2 by lia. reflexivity.
  - rewrite range_succ, foldl_app, IH. simpl.
    apply evaluate_step_after_games; assumption.
Qed.

(** The loop as a whole. *)
Lemma evaluate_loop_spec (a : args) (current_model new_model : Model) :
  0 <= num_evaluate_games a ->
  evaluate_loop play_game a current_model new_model
  = after_games play_game (num_evaluate_games a) current_model new_model
                (Z.to_nat (num_evaluate_games a)).
Proof.
  intros Hn. unfold evaluate_loop.
  rewrite <- (evaluate_loop_invariant _ _ _ _ Hn).
  rewrite Z2Nat.id by assumption. reflexivity.
Qed.

(** How many of the games 0 to k-1 come before the index [h]. *)
Lemma first_half_length (n h : Z) (current_model new_model : Model) (k : nat) :
  0 <= h ->
  length (filter (fun e : episode Model => game_index e < h)
            (expected_episode play_game n current_model new_model
               <$> range (Z.of_nat k)))
  = Nat.min k (Z.to_nat h).
Proof.
  intros Hh. induction k as [|k IH]; [reflexivity|].
  rewrite range_succ, fmap_app, list_fmap_singleton, filter_app, length_app, IH.
  destruct (decide (Z.of_nat k < h)) as [Hlt|Hge].
  - rewrite filter_cons_True by (simpl; assumption).
    rewrite filter_nil. cbn [length]. lia.
  - rewrite filter_cons_False by (simpl; assumption).
    rewrite filter_nil. cbn [length]. lia.
Qed.

Lemma second_half_length (n h : Z) (current_model new_model : Model) (k : nat) :
  0 <= h ->
  length (filter (fun e : episode Model => h <= game_index e)
            (expected_episode play_game n current_model new_model
               <$> range (Z.of_nat k)))
  = (k - Z.to_nat h)%nat.
Proof.
  intros Hh. induction k as [|k IH]; [reflexivity|].
  rewrite range_succ, fmap_app, list_fmap_singleton, filter_app, length_app, IH.
  destruct (decide (h <= Z.of_nat k)) as [Hle|Hgt].
  - rewrite filter_cons_True by (simpl; assumption).
    rewrite filter_nil. cbn [length]. lia.
  - rewrite filter_cons_False by (simpl; assumption).
    rewrite filter_nil. cbn [length]. lia.
Qed.

(** C4: for every number of games n >= 0, the log of the episodes
    [evaluate] plays is, game by game, the described one: the incumbent
    has the first role in the floor(n/2) games before the halfway point
    and the candidate in the n - floor(n/2) games from there on, the two
    halves make up the n games, and a game counts as a win of the
    candidate exactly when it is a second-player win of the first half
    or a first-player win of the second half. *)
Theorem evaluate_alternates_roles (a : args) (current_model new_model : Model) :
  0 <= num_evaluate_games a ->
  let n := num_evaluate_games a in
  let st := evaluate_loop play_game a current_model new_model in
  played st = expected_episode play_game n current_model new_model <$> range n
  /\ Z.of_nat (length (first_half n (played st))) = n `div` 2
  /\ Z.of_nat (length (second_half n (played st))) = n - n `div` 2
  /\ Z.of_nat (length (played st)) = n
  /\ (forall e, e ∈ first_half n (played st) ->
        played_first e = current_model /\ played_second e = new_model)
  /\ (forall e, e ∈ second_half n (played st) ->
        played_first e = new_model /\ played_second e = current_model)
  /\ (forall e, e ∈ played st ->
        game_result e = play_game (game_index e) (played_first e) (played_second e)
        /\ (counted_win e = true <->
            (game_index e < n `div` 2 /\ game_result e = -1)
            \/ (n `div` 2 <= game_index e /\ game_result e = 1)))
  /\ num_wins st = count_wins (played st).
Proof.
  intros Hn n st.
  assert (Hh : 0 <= n `div` 2) by (apply Z.div_pos; lia).
  assert (Hh2 : n `div` 2 <= n) by (apply Z.div_le_upper_bound; lia).
  assert (Hst : st = after_games play_game n current_model new_model (Z.to_nat n))
    by (apply evaluate_loop_spec; assumption).
  assert (Hlog : played st
                 = expected_episode play_game n current_model new_model <$> range n).
  { rewrite Hst. unfold after_games. cbn [played].
    rewrite Z2Nat.id by assumption. reflexivity. }
  split; [exact Hlog|].
  split.
  { unfold first_half. rewrite Hlog.
    rewrite <- (Z2Nat.id n) at 2 by assumption.
    rewrite first_half_length by assumption. lia. }
  split.
  { unfold second_half. rewrite Hlog.
    rewrite <- (Z2Nat.id n) at 2 by assumption.
    rewrite second_half_length by assumption. lia. }
  split.
  { rewrite Hlog, length_fmap. apply range_length; assumption. }
  split.
  { intros e He. unfold first_half in He.
    apply list_elem_of_filter in He as [Hi He].
    rewrite Hlog in He. apply list_elem_of_fmap in He as (i & -> & _).
    unfold expected_episode in *. cbn in *.
    rewrite bool_decide_eq_true_2 by assumption. split; reflexivity. }
  split.
  { intros e He. unfold second_half in He.
    apply list_elem_of_filter in He as [Hi He].
    rewrite Hlog in He. apply list_elem_of_fmap in He as (i & -> & _).
    unfold expected_episode in *. cbn in *.
    rewrite bool_decide_eq_false_2 by lia. split; reflexivity. }
  split.
  { intros e He.
    rewrite Hlog in He. apply list_elem_of_fmap in He as (i & -> & _).
    unfold expected_episode. cbn. split; [reflexivity|].
    apply bool_decide_eq_true. }
  rewrite Hst. reflexivity.
Qed.

(** The win count lies between 0 and the number of episodes. *)
Lemma count_wins_bounds (log : list (episode Model)) :
  0 <= count_wins log <= Z.of_nat (length log).
Proof.
  unfold count_wins.
  pose proof (length_filter (fun e : episode Model => counted_win e = true) log).
  lia.
Qed.

(** The win count of the whole loop. *)
Lemma evaluate_loop_wins (a : args) (current_model new_model : Model) :
  0 <= num_evaluate_games a ->
  num_wins (evaluate_loop play_game a current_model new_model)
  = count_wins (expected_episode play_game (num_evaluate_games a)
                  current_model new_model <$> range (num_evaluate_games a)).
Proof.
  intros Hn. rewrite evaluate_loop_spec by assumption.
  unfold after_games. cbn [num_wins]. rewrite Z2Nat.id by assumption.
  reflexivity.
Qed.

(** It is at most the number of games. *)
Lemma evaluate_loop_wins_bounds (a : args) (current_model new_model : Model) :
  0 <= num_evaluate_games a ->
  0 <= num_wins (evaluate_loop play_game a current_model new_model)
    <= num_evaluate_games a.
Proof.
  intros Hn. rewrite evaluate_loop_wins by assumption.
  pose proof (count_wins_bounds
                (expected_episode play_game (num_evaluate_games a)
                   current_model new_model <$> range (num_evaluate_games a))) as Hc.
  rewrite length_fmap, range_length in Hc by assumption. exact Hc.
Qed.

(** Without games to play the loop leaves its variables as they were. *)
Lemma evaluate_loop_no_games (a : args) (current_model new_model : Model) :
  num_evaluate_games a <= 0 ->
  evaluate_loop play_game a current_model new_model
  = LoopState 0 current_model new_model [].
Proof.
  intros Hn. unfold evaluate_loop, range.
  replace (Z.to_nat (num_evaluate_games a)) with O by lia. reflexivity.
Qed.

(** With a game to divide by, [evaluate] returns the comparison. *)
Lemma evaluate_returns (a : args) (current_model new_model : Model) :
  1 <= num_evaluate_games a ->
  evaluate play_game a current_model new_model
  = Ret (float_ge
           (rounded_quotient
              (num_wins (evaluate_loop play_game a current_model new_model))
              (num_evaluate_games a))
           (evaluation_threshold a)).
Proof.
  intros Hn. unfold evaluate.
  rewrite truediv_small by (apply evaluate_loop_wins_bounds || idtac; lia).
  reflexivity.
Qed.

(** With a negative number of games it compares -0.0 with the
    threshold. *)
Lemma evaluate_returns_negative (a : args) (current_model new_model : Model) :
  num_evaluate_games a < 0 ->
  evaluate play_game a current_model new_model
  = Ret (float_ge (S754_zero true) (evaluation_threshold a)).
Proof.
  intros Hn. unfold evaluate.
  rewrite evaluate_loop_no_games by lia. cbn [num_wins].
  rewrite truediv_zero by lia.
  rewrite bool_decide_eq_true_2 by lia. reflexivity.
Qed.

(** With no game it raises. *)
Lemma evaluate_raises (a : args) (current_model new_model : Model) :
  num_evaluate_games a = 0 ->
  evaluate play_game a current_model new_model = Raise ZeroDivisionError.
Proof.
  intros Hn. unfold evaluate, truediv. rewrite Hn.
  destruct (decide (0 = 0)) as [_|Hne]; [reflexivity|contradiction].
Qed.

(** *** Episodes that may not return *)

Section Episodes.
Variable episodes : Z -> Model -> Model -> option Z.

(** After an episode that has not returned there is no iteration. *)
Lemma partial_loop_stuck (h : Z) (l : list Z) :
  foldl (PartialTournament.evaluate_step episodes h) None l = None.
Proof. induction l as [|i l IH]; [reflexivity|exact IH]. Qed.

(** While the episodes return, the loop goes as it goes with the values
    they return. *)
Lemma partial_loop_total (h : Z) (l : list Z) (st : loop_state Model) :
  (forall i first second, episodes i first second = Some (play_game i first second)) ->
  foldl (PartialTournament.evaluate_step episodes h) (Some st) l
  = Some (foldl (evaluate_step play_game h) st l).
Proof.
  intros Hep. revert st. induction l as [|i l IH]; intros st; [reflexivity|].
  cbn [foldl]. rewrite <- IH. f_equal.
  unfold PartialTournament.evaluate_step, evaluate_step. cbn.
  destruct (bool_decide (i = h)); rewrite Hep; reflexivity.
Qed.

Lemma partial_evaluate_total (a : args) (current_model new_model : Model) :
  (forall i first second, episodes i first second = Some (play_game i first second)) ->
  PartialTournament.evaluate episodes a current_model new_model
  = Some (evaluate play_game a current_model new_model).
Proof.
  intros Hep. unfold PartialTournament.evaluate, PartialTournament.evaluate_loop.
  rewrite partial_loop_total by exact Hep. reflexivity.
Qed.

Lemma partial_evaluate_no_games (a : args) (current_model new_model : Model) :
  num_evaluate_games a <= 0 ->
  PartialTournament.evaluate episodes a current_model new_model
  = Some (evaluate play_game a current_model new_model).
Proof.
  intros Hn. unfold PartialTournament.evaluate, PartialTournament.evaluate_loop.
  unfold evaluate, evaluate_loop, range.
  replace (Z.to_nat (num_evaluate_games a)) with O by lia. reflexivity.
Qed.

Lemma partial_evaluate_stuck (a : args) (current_model new_model : Model) :
  1 <= num_evaluate_games a ->
  (forall first second, episodes 0 first second = None) ->
  PartialTournament.evaluate episodes a current_model new_model = None.
Proof.
  intros Hn Hep. unfold PartialTournament.evaluate, PartialTournament.evaluate_loop.
  unfold range.
  destruct (Z.to_nat (num_evaluate_games a)) as [|k] eqn:Hk; [lia|].
  cbn [seq fmap list_fmap foldl].
  assert (Hfirst : PartialTournament.evaluate_step episodes
                     (num_evaluate_games a `div` 2)
                     (Some (LoopState 0 current_model new_model [])) (Z.of_nat 0)
                   = None).
  { unfold PartialTournament.evaluate_step. change (Z.of_nat 0) with 0. cbn.
    destruct (bool_decide (0 = num_evaluate_games a `div` 2)); rewrite Hep;
      reflexivity. }
  rewrite Hfirst, partial_loop_stuck. reflexivity.
Qed.

End Episodes.

(** C3, as the code has it: with at least one game to play, the division
    of line 110 raises nothing and [evaluate] returns the outcome of
    comparing, as floats, the quotient of the candidate's win count over
    all the games by the number of games, rounded once to the nearest
    float, with the threshold; it returns true exactly when that float
    comparison holds.  The boundary is included: a threshold equal to the
    rounded quotient accepts.  Out of 20 games at the threshold 0.55 the
    decision is that of comparing the fractions wins/20 and 55/100, so 11
    wins are accepted and 10 wins are not. *)
Theorem evaluate_accepts_at_threshold (a : args) (current_model new_model : Model) :
  1 <= num_evaluate_games a ->
  let n := num_evaluate_games a in
  let wins :=
    count_wins (expected_episode play_game n current_model new_model <$> range n) in
  truediv wins n = Ret (rounded_quotient wins n)
  /\ rounded_quotient wins n <> S754_nan
  /\ evaluate play_game a current_model new_model
     = Ret (float_ge (rounded_quotient wins n) (evaluation_threshold a))
  /\ (evaluate play_game a current_model new_model = Ret true
      <-> float_ge (rounded_quotient wins n) (evaluation_threshold a) = true)
  /\ (evaluation_threshold a = float_of_fraction wins n ->
      evaluate play_game a current_model new_model = Ret true)
  /\ (n = 20 -> evaluation_threshold a = Examples.threshold_0_55 ->
      evaluate play_game a current_model new_model
      = Ret (Exact.ge_fraction wins 20 55 100))
  /\ (n = 20 -> evaluation_threshold a = Examples.threshold_0_55 -> wins = 11 ->
      evaluate play_game a current_model new_model = Ret true)
  /\ (n = 20 -> evaluation_threshold a = Examples.threshold_0_55 -> wins = 10 ->
      evaluate play_game a current_model new_model = Ret false).
Proof.
  intros Hn n wins.
  assert (Hwins : num_wins (evaluate_loop play_game a current_model new_model) = wins)
    by (apply evaluate_loop_wins; lia).
  assert (Hev := evaluate_returns a current_model new_model Hn).
  rewrite Hwins in Hev. fold n in Hev.
  assert (Hb : 0 <= wins <= n).
  { rewrite <- Hwins. apply evaluate_loop_wins_bounds. lia. }
  destruct (rounded_quotient_small wins n Hb Hn) as [Hnan _].
  split; [apply truediv_small; assumption|].
  split; [exact Hnan|].
  split; [exact Hev|].
  split; [rewrite Hev; split; [intros [= Hge]; exact Hge|intros ->; reflexivity]|].
  split; [|split; [|split]].
  - intros Hthr. rewrite Hev, Hthr. unfold float_of_fraction.
    rewrite float_ge_refl by exact Hnan. reflexivity.
  - intros Hn20 Hthr. rewrite Hev, Hn20, Hthr.
    rewrite accept_20_at_0_55 by lia. reflexivity.
  - intros Hn20 Hthr Hw. rewrite Hev, Hn20, Hthr, Hw. vm_compute. reflexivity.
  - intros Hn20 Hthr Hw. rewrite Hev, Hn20, Hthr, Hw. vm_compute. reflexivity.
Qed.

(** C10, as the code has it: [evaluate] raises [ZeroDivisionError]
    exactly when [num_evaluate_games] is 0, the loop then playing no
    game; with any other number of games, negative ones included, the
    division raises nothing and [evaluate] returns a boolean once its
    episodes have returned.  A negative number plays no game and compares
    -0.0 with the threshold.  With no game to play the outcome does not
    depend on the episodes; with one game or more [evaluate] returns
    when every episode does, and does not return when the first does
    not. *)
Theorem evaluate_zero_games_raises (a : args) (current_model new_model : Model)
    (episodes : Z -> Model -> Model -> option Z) :
  (num_evaluate_games a = 0
   <-> evaluate play_game a current_model new_model = Raise ZeroDivisionError)
  /\ (num_evaluate_games a = 0 ->
      played (evaluate_loop play_game a current_model new_model) = [])
  /\ (num_evaluate_games a <> 0 ->
      exists b : bool, evaluate play_game a current_model new_model = Ret b)
  /\ (num_evaluate_games a < 0 ->
      played (evaluate_loop play_game a current_model new_model) = []
      /\ evaluate play_game a current_model new_model
         = Ret (float_ge (S754_zero true) (evaluation_threshold a)))
  /\ (num_evaluate_games a <= 0 ->
      PartialTournament.evaluate episodes a current_model new_model
      = Some (evaluate play_game a current_model new_model))
  /\ ((forall i first second,
         episodes i first second = Some (play_game i first second)) ->
      PartialTournament.evaluate episodes a current_model new_model
      = Some (evaluate play_game a current_model new_model))
  /\ (1 <= num_evaluate_games a ->
      (forall first second, episodes 0 first second = None) ->
      PartialTournament.evaluate episodes a current_model new_model = None).
Proof.
  assert (Hret : num_evaluate_games a <> 0 ->
            exists b : bool, evaluate play_game a current_model new_model = Ret b).
  { intros Hn. destruct (Z.lt_ge_cases (num_evaluate_games a) 0) as [Hneg|Hpos].
    - eexists. apply evaluate_returns_negative, Hneg.
    - eexists. apply evaluate_returns. lia. }
  split.
  { split; [apply evaluate_raises|].
    intros Hraise. destruct (decide (num_evaluate_games a = 0)) as [H0|Hne];
      [exact H0|].
    destruct (Hret Hne) as [b Hb]. congruence. }
  split; [intros Hn; rewrite evaluate_loop_no_games by lia; reflexivity|].
  split; [exact Hret|].
  split.
  { intros Hn. split; [rewrite evaluate_loop_no_games by lia; reflexivity|].
    apply evaluate_returns_negative, Hn. }
  split; [apply partial_evaluate_no_games|].
  split; [apply partial_evaluate_total|].
  apply partial_evaluate_stuck.
Qed.

End TournamentFacts.

(** The threshold 0.55 is the double 0x1.199999999999ap-1. *)
Lemma threshold_0_55_bits :
  Examples.threshold_0_55 = S754_finite false 4953959590107546 (-53).
Proof. vm_compute. reflexivity. Qed.

(** Five games: the incumbent moves first in two of them. *)
Lemma evaluate_alternates_roles_witness :
  0 <= 5
  /\ Z.of_nat (length (Tournament.first_half 5
       (Tournament.played
          (Tournament.evaluate_loop Examples.stronger_wins
             (Args 5 Examples.threshold_0_55 5 "models") 0 1)))) = 2.
Proof.
  split; [lia|].
  exact (proj1 (proj2 (evaluate_alternates_roles Examples.stronger_wins
           (Args 5 Examples.threshold_0_55 5 "models") 0 1 ltac:(simpl; lia)))).
Defined.

(** Twenty games of which the candidate wins eleven, at 0.55. *)
Lemma evaluate_accepts_at_threshold_witness :
  1 <= 20
  /\ Tournament.evaluate (Examples.wins_first 11 20) Examples.args20 0 1 = Ret true.
Proof.
  split; [lia|].
  apply (proj1 (proj2 (proj2 (proj2 (proj2 (proj2 (proj2
           (evaluate_accepts_at_threshold (Examples.wins_first 11 20)
              Examples.args20 0 1 ltac:(simpl; lia))))))))); reflexivity.
Defined.

(** Against C3 as stated: the comparison is one of floats, not of
    fractions.  One win in three games is accepted at the threshold
    0.33333333333333334, which is more than a third; and eleven wins in
    twenty games are accepted at the threshold 0.55 although 11/20 is
    less than the number the float 0.55 stands for. *)
Lemma evaluate_is_no_comparison_of_fractions :
  1 <= num_evaluate_games Examples.args3
  /\ Tournament.count_wins
       (Tournament.expected_episode (Examples.wins_first 1 3) 3 0 1
          <$> range 3) = 1
  /\ Tournament.evaluate (Examples.wins_first 1 3) Examples.args3 0 1 = Ret true
  /\ Exact.ge_fraction 1 3 33333333333333334 100000000000000000 = false
  /\ Tournament.count_wins
       (Tournament.expected_episode (Examples.wins_first 11 20) 20 0 1
          <$> range 20) = 11
  /\ Tournament.evaluate (Examples.wins_first 11 20) Examples.args20 0 1 = Ret true
  /\ Exact.ge_float 11 20 (evaluation_threshold Examples.args20) = false.
Proof.
  split; [cbn; lia|]. repeat split; vm_compute; reflexivity.
Qed.

(** Against C10 as stated: with minus one game, which is not one game or
    more, [evaluate] returns a boolean. *)
Lemma evaluate_with_minus_one_game :
  ~ 1 <= num_evaluate_games Examples.args_minus_1
  /\ Tournament.evaluate Examples.stronger_wins Examples.args_minus_1 0 1
     = Ret false
  /\ Tournament.evaluate Examples.stronger_wins
       (Args (-1) (S754_zero false) 5 "models") 0 1 = Ret true.
Proof.
  split; [cbn; lia|]. split; vm_compute; reflexivity.
Qed.

(** ** The episode runner *)

Section EpisodeFacts.
Import Episode.
Context {Board Action Tensor Policy Value Model : Type}.
Variable game : Game Board Action.
Variable board_translator : BoardTranslator Board Tensor.
Variable move_translator : MoveTranslator Action.
Variable net : Network Model Tensor Policy Value.

(** The search loop stops at the highest-ranked legal candidate. *)
Lemma select_action_first_legal (board : Board) (illegal rest : list Z)
    (index : Z) (action : option Action) :
  Forall (fun i => checkIfValid game board (decode move_translator i) = false) illegal ->
  checkIfValid game board (decode move_translator index) = true ->
  select_action game move_translator board (illegal ++ index :: rest) action
  = Some (decode move_translator index).
Proof.
  intros Hill Hok. revert action.
  induction Hill as [|i illegal Hi _ IH]; intros action; simpl.
  - rewrite Hok. reflexivity.
  - rewrite Hi. apply IH.
Qed.

(** When no candidate is legal the loop runs to its end and [action] is
    left at the last candidate decoded, or as it was without candidates. *)
Lemma select_action_none_legal (board : Board) (sorted_indices : list Z)
    (action : option Action) :
  Forall (fun i => checkIfValid game board (decode move_translator i) = false)
         sorted_indices ->
  select_action game move_translator board sorted_indices action
  = match last sorted_indices with
    | Some index => Some (decode move_translator index)
    | None => action
    end.
Proof.
  intros Hill. revert action.
  induction Hill as [|i rest Hi _ IH]; intros action; simpl; [reflexivity|].
  rewrite Hi, IH. destruct rest as [|j rest]; [reflexivity|].
  rewrite last_cons_cons.
  destruct (last (j :: rest)) eqn:Hlast; [reflexivity|].
  apply last_None in Hlast. discriminate.
Qed.

(** A turn hands [getNextState] whatever the search loop left in [action]. *)
Lemma play_turn_applies (board : Board) (current_player : Model) :
  play_turn game board_translator move_translator net board current_player
  = getNextState game board
      (select_action game move_translator board
         (argsort_descending net
            (forward net current_player (encode board_translator board)).1)
         None).
Proof.
  unfold play_turn.
  destruct (forward net current_player (encode board_translator board)).
  reflexivity.
Qed.

(** So a turn without a legal candidate advances the game by the
    lowest-ranked, illegal, candidate. *)
Lemma play_turn_none_legal (board : Board) (current_player : Model) (index : Z) :
  let sorted_indices :=
    argsort_descending net
      (forward net current_player (encode board_translator board)).1 in
  Forall (fun i => checkIfValid game board (decode move_translator i) = false)
         sorted_indices ->
  last sorted_indices = Some index ->
  play_turn game board_translator move_translator net board current_player
  = getNextState game board (Some (decode move_translator index)).
Proof.
  intros sorted_indices Hill Hlast.
  rewrite play_turn_applies. fold sorted_indices.
  rewrite select_action_none_legal by assumption.
  rewrite Hlast. reflexivity.
Qed.

End EpisodeFacts.

(** C2, at a failing input: the heap game with an encoding whose three
    candidates (taking 8, 7 or 9 sticks) are all refused by the legality
    check.  [play_game] raises nothing: its first turn calls
    [getNextState] with the last candidate, taking 9 sticks from a heap of
    5, the state advances to -4 and the episode returns -1. *)
Theorem play_game_applies_illegal_action :
  forallb (fun index =>
             negb (Episode.checkIfValid Examples.sticks 5
                     (Episode.decode Examples.broken_moves index)))
          [1; 0; 2] = true
  /\ Episode.applied_actions Examples.sticks Examples.identity_board
       Examples.broken_moves Examples.fixed_net 10 5 0 1 = [(5, Some 9)]
  /\ Episode.play_turn Examples.sticks Examples.identity_board
       Examples.broken_moves Examples.fixed_net 5 0 = -4
  /\ Episode.play_game Examples.sticks Examples.identity_board
       Examples.broken_moves Examples.fixed_net 10 0 1 = Some (-1).
Proof. repeat split; vm_compute; reflexivity. Qed.

(** ** The model archive *)

Section ArchiveFacts.
Import Archive.

(** *** Strings *)

Lemma append_nil_l (s : string) : EmptyString +:+ s = s.
Proof. reflexivity. Qed.

Lemma append_cons (ch : ascii) (s t : string) :
  String ch s +:+ t = String ch (s +:+ t).
Proof. reflexivity. Qed.

Lemma append_assoc (s t u : string) : (s +:+ t) +:+ u = s +:+ (t +:+ u).
Proof.
  induction s as [|ch s IH]; [reflexivity|].
  rewrite !append_cons, IH. reflexivity.
Qed.

Lemma append_length (s t : string) :
  String.length (s +:+ t) = (String.length s + String.length t)%nat.
Proof.
  induction s as [|ch s IH]; [reflexivity|].
  rewrite append_cons. simpl. rewrite IH. reflexivity.
Qed.

Lemma ascii_compare_refl (ch : ascii) : Ascii.compare ch ch = Eq.
Proof. unfold Ascii.compare. apply N.compare_refl. Qed.

Lemma compare_cons_same (ch : ascii) (s t : string) :
  String.compare (String ch s) (String ch t) = String.compare s t.
Proof. simpl. rewrite ascii_compare_refl. reflexivity. Qed.

(** A common prefix does not matter for the order of two strings. *)
Lemma compare_append_prefix (p s t : string) :
  String.compare (p +:+ s) (p +:+ t) = String.compare s t.
Proof.
  induction p as [|ch p IH]; [reflexivity|].
  rewrite !append_cons, compare_cons_same. exact IH.
Qed.

(** *** Digits *)

Lemma digit_code (d : Z) :
  0 <= d < 10 -> Ascii.N_of_ascii (digit d) = (48 + Z.to_N d)%N.
Proof.
  intros Hd. unfold digit. apply Ascii.N_ascii_embedding. lia.
Qed.

Lemma digit_compare (x y : Z) :
  0 <= x < 10 -> 0 <= y < 10 ->
  Ascii.compare (digit x) (digit y) = (x ?= y).
Proof.
  intros Hx Hy. unfold Ascii.compare. rewrite !digit_code by assumption.
  destruct (Z.compare_spec x y) as [Heq|Hlt|Hgt].
  - subst. apply N.compare_refl.
  - apply N.compare_lt_iff. lia.
  - apply N.compare_gt_iff. lia.
Qed.

(** Two-digit fields order strings the way they order numbers. *)
Lemma two_digits_compare (x y : Z) (s t : string) :
  0 <= x < 100 -> 0 <= y < 100 ->
  String.compare (two_digits x +:+ s) (two_digits y +:+ t)
  = match x ?= y with
    | Eq => String.compare s t
    | Lt => Lt
    | Gt => Gt
    end.
Proof.
  intros Hx Hy. unfold two_digits. rewrite !append_cons, !append_nil_l.
  cbn [String.compare].
  rewrite !digit_compare by (Z.div_mod_to_equations; lia).
  destruct (Z.compare_spec (x `div` 10) (y `div` 10)) as [Hq|Hq|Hq];
    destruct (Z.compare_spec (x `mod` 10) (y `mod` 10)) as [Hr|Hr|Hr];
    destruct (Z.compare_spec x y) as [Hc|Hc|Hc];
    try reflexivity; exfalso; Z.div_mod_to_equations; lia.
Qed.

Lemma pretty_N_char_digit (d : N) :
  (d < 10)%N -> pretty_N_char d = digit (Z.of_N d).
Proof.
  intros Hd.
  assert (Hcases : (d = 0 \/ d = 1 \/ d = 2 \/ d = 3 \/ d = 4 \/ d = 5
                    \/ d = 6 \/ d = 7 \/ d = 8 \/ d = 9)%N) by lia.
  repeat (destruct Hcases as [->|Hcases]; [reflexivity|]).
  subst. reflexivity.
Qed.

(** [%Y] of a four-digit year is two two-digit fields. *)
Lemma pretty_four_digits (y : Z) :
  1000 <= y <= 9999 ->
  pretty y = two_digits (y `div` 100) +:+ two_digits (y `mod` 100).
Proof.
  intros Hy. destruct y as [|p|p]; try lia.
  change (pretty (Z.pos p)) with (pretty (N.pos p)).
  unfold pretty, pretty_N.
  destruct (decide (N.pos p = 0%N)) as [H0|_]; [discriminate|].
  set (x := N.pos p). assert (Hx : Z.of_N x = Z.pos p) by reflexivity.
  rewrite <- Hx in *. clearbody x. clear Hx p.
  rewrite pretty_N_go_step by lia.
  rewrite pretty_N_go_step by (apply N.div_str_pos; lia).
  rewrite pretty_N_go_step
    by (apply N.div_str_pos; split; [lia|]; apply N.div_le_lower_bound; lia).
  rewrite pretty_N_go_step
    by (apply N.div_str_pos; split; [lia|];
        apply N.div_le_lower_bound; [lia|];
        apply N.div_le_lower_bound; lia).
  assert (Hz : ((((x `div` 10) `div` 10) `div` 10) `div` 10 = 0)%N).
  { rewrite !N.Div0.div_div. apply N.div_small. lia. }
  rewrite Hz, pretty_N_go_0.
  rewrite !pretty_N_char_digit by (apply N.mod_lt; discriminate).
  unfold two_digits. rewrite !append_cons, !append_nil_l.
  rewrite !N2Z.inj_mod, !N2Z.inj_div. change (Z.of_N 10) with 10.
  repeat (f_equal; [f_equal; Z.div_mod_to_equations; lia|]).
  do 2 f_equal. Z.div_mod_to_equations. lia.
Qed.

Lemma append_nil_r (s : string) : s +:+ EmptyString = s.
Proof.
  induction s as [|ch s IH]; [reflexivity|].
  rewrite append_cons, IH. reflexivity.
Qed.

(** *** File names *)

(** One field of the time stamp settled, the comparison goes on with the
    next. *)
Ltac compare_field :=
  rewrite two_digits_compare by (Z.div_mod_to_equations; lia);
  match goal with
  | |- context [Z.compare ?x ?y] => destruct (Z.compare_spec x y)
  end;
  [ rewrite ?append_cons, ?append_nil_l, ?compare_cons_same
  | reflexivity
  | exfalso; Z.div_mod_to_equations; lia ].

(** The time stamps of two times with four-digit years are ordered as the
    times are, whatever follows the stamps. *)
Lemma strftime_order (t1 t2 : struct_time) (u1 u2 : string) :
  valid_time t1 -> valid_time t2 -> time_lt t1 t2 ->
  String.compare (strftime t1 +:+ u1) (strftime t2 +:+ u2) = Lt.
Proof.
  intros (Hy1 & Hm1 & Hd1 & Hh1 & Hi1 & Hs1) (Hy2 & Hm2 & Hd2 & Hh2 & Hi2 & Hs2) Hlt.
  unfold time_lt, time_key in Hlt. simpl in Hlt.
  unfold strftime. rewrite !pretty_four_digits by assumption.
  rewrite !append_assoc.
  do 7 compare_field.
  exfalso. Z.div_mod_to_equations. lia.
Qed.

Lemma pretty_N_char_no_sep (d : N) (s : string) :
  starts_with_sep (String (pretty_N_char d) s) = false.
Proof.
  destruct d as [|p]; [reflexivity|].
  do 4 (try destruct p as [p|p|]); reflexivity.
Qed.

Lemma pretty_N_go_no_sep (x : N) (s : string) :
  starts_with_sep s = false -> starts_with_sep (pretty_N_go x s) = false.
Proof.
  revert s. induction (N.lt_wf_0 x) as [x _ IH]. intros s Hs.
  destruct (decide (x = 0%N)) as [->|Hx].
  - rewrite pretty_N_go_0. exact Hs.
  - rewrite pretty_N_go_step by lia. apply IH.
    + apply N.div_lt; lia.
    + apply pretty_N_char_no_sep.
Qed.

Lemma append_no_sep (s t : string) :
  starts_with_sep s = false -> starts_with_sep t = false ->
  starts_with_sep (s +:+ t) = false.
Proof. intros Hs Ht. destruct s as [|ch s]; [exact Ht|exact Hs]. Qed.

(** The year in decimal does not begin with a slash. *)
Lemma pretty_Z_no_sep (z : Z) : starts_with_sep (pretty z) = false.
Proof.
  destruct z as [|p|p]; [reflexivity| |reflexivity].
  change (pretty (Z.pos p)) with (pretty (N.pos p)).
  unfold pretty, pretty_N.
  destruct (decide (N.pos p = 0%N)); [reflexivity|].
  apply pretty_N_go_no_sep. reflexivity.
Qed.

(** So the file name is a relative one for [os.path.join]. *)
Lemma file_name_no_sep (now : struct_time) :
  starts_with_sep (file_name now) = false.
Proof.
  unfold file_name, strftime. rewrite !append_assoc.
  apply append_no_sep; [apply pretty_Z_no_sep|reflexivity].
Qed.

(** The path of the file: the directory, a slash unless the directory
    ends with one, and the file name. *)
Lemma file_path_spec (now : struct_time) (path : string) :
  file_path now path
  = (relative_dir path +:+ (if ends_with_sep (relative_dir path) then EmptyString else "/"))
    +:+ file_name now.
Proof.
  unfold file_path, path_join. rewrite file_name_no_sep.
  assert (Hne : relative_dir path <> EmptyString) by (unfold relative_dir; discriminate).
  rewrite (bool_decide_eq_false_2 _ Hne), orb_false_l.
  destruct (ends_with_sep (relative_dir path)).
  - rewrite append_nil_r. reflexivity.
  - rewrite append_assoc. reflexivity.
Qed.

(** *** The names a path goes through *)

Lemma has_char_app (ch : ascii) (s t : string) :
  has_char ch (s +:+ t) = has_char ch s || has_char ch t.
Proof.
  induction s as [|c s IH]; [reflexivity|].
  rewrite append_cons. cbn [has_char]. rewrite IH, orb_assoc. reflexivity.
Qed.

(** A character before the digits is no digit. *)
Lemma digit_is_not (ch : ascii) (d : Z) :
  0 <= d < 10 -> (Ascii.N_of_ascii ch < 48)%N ->
  bool_decide (digit d = ch) = false.
Proof.
  intros Hd Hch. apply bool_decide_eq_false. intros Heq.
  apply (f_equal Ascii.N_of_ascii) in Heq. rewrite digit_code in Heq by exact Hd.
  lia.
Qed.

Lemma has_char_two_digits (ch : ascii) (x : Z) :
  0 <= x < 100 -> (Ascii.N_of_ascii ch < 48)%N ->
  has_char ch (two_digits x) = false.
Proof.
  intros Hx Hch. unfold two_digits. cbn [has_char].
  rewrite !digit_is_not by (assumption || (Z.div_mod_to_equations; lia)).
  reflexivity.
Qed.

Lemma pretty_N_char_is_not (ch : ascii) (d : N) :
  (Ascii.N_of_ascii ch < 48)%N -> bool_decide (pretty_N_char d = ch) = false.
Proof.
  intros Hch. apply bool_decide_eq_false. intros Heq.
  apply (f_equal Ascii.N_of_ascii) in Heq.
  assert (Hd : (48 <= Ascii.N_of_ascii (pretty_N_char d))%N).
  { destruct d as [|p]; [cbn; lia|].
    do 4 (try destruct p as [p|p|]); cbn; lia. }
  lia.
Qed.

Lemma has_char_pretty_N_go (ch : ascii) (x : N) (s : string) :
  (Ascii.N_of_ascii ch < 48)%N ->
  has_char ch (pretty_N_go x s) = has_char ch s.
Proof.
  intros Hch. revert s. induction (N.lt_wf_0 x) as [x _ IH]. intros s.
  destruct (decide (x = 0%N)) as [->|Hx].
  - rewrite pretty_N_go_0. reflexivity.
  - rewrite pretty_N_go_step by lia. rewrite IH by (apply N.div_lt; lia).
    cbn [has_char]. rewrite pretty_N_char_is_not by exact Hch. reflexivity.
Qed.

(** The year in decimal has neither a slash nor a NUL in it. *)
Lemma has_char_pretty_Z (ch : ascii) (z : Z) :
  (Ascii.N_of_ascii ch < 48)%N -> ch <> "-"%char ->
  has_char ch (pretty z) = false.
Proof.
  intros Hch Hminus.
  assert (HN : forall p, has_char ch (pretty (N.pos p)) = false).
  { intros p. unfold pretty, pretty_N.
    destruct (decide (N.pos p = 0%N)); [discriminate|].
    rewrite has_char_pretty_N_go by exact Hch. reflexivity. }
  destruct z as [|p|p].
  - cbn. rewrite bool_decide_eq_false_2; [reflexivity|].
    intros Heq. rewrite <- Heq in Hch. cbn in Hch. lia.
  - exact (HN p).
  - change (pretty (Z.neg p)) with ("-" +:+ pretty (N.pos p)).
    rewrite has_char_app, HN. cbn.
    rewrite bool_decide_eq_false_2 by congruence. reflexivity.
Qed.

(** Neither has the file name. *)
Lemma has_char_file_name (ch : ascii) (now : struct_time) :
  gmtime_range now -> ch = "/"%char \/ ch = "000"%char ->
  has_char ch (file_name now) = false.
Proof.
  intros (Hm & Hd & Hh & Hi & Hs) Hch.
  assert (Hlow : (Ascii.N_of_ascii ch < 48)%N)
    by (destruct Hch as [->| ->]; cbn; lia).
  assert (Hminus : ch <> "-"%char) by (destruct Hch as [->| ->]; discriminate).
  unfold file_name, strftime. rewrite !has_char_app.
  rewrite has_char_pretty_Z by assumption.
  rewrite !has_char_two_digits by (assumption || lia).
  destruct Hch as [->| ->]; reflexivity.
Qed.

Lemma has_char_empty_false (ch : ascii) (names : list string) :
  Forall (fun name => has_char ch name = false) names
  <-> Forall (fun name => has_char ch name = false)
             (filter (fun name => name <> EmptyString) names).
Proof.
  induction names as [|name names IH]; [reflexivity|].
  destruct (decide (name = EmptyString)) as [->|Hne].
  - rewrite filter_cons_False by auto. rewrite Forall_cons, IH. cbn. tauto.
  - rewrite filter_cons_True by exact Hne. rewrite !Forall_cons, IH. tauto.
Qed.

Lemma split_sep_nonempty (s : string) : split_sep s <> [].
Proof.
  induction s as [|c s IH]; [discriminate|].
  cbn [split_sep]. destruct (bool_decide (c = "/"%char)); [discriminate|].
  destruct (split_sep s); discriminate.
Qed.

(** A string without a slash is one name. *)
Lemma split_sep_plain (s : string) :
  has_char "/" s = false -> split_sep s = [s].
Proof.
  induction s as [|c s IH]; [reflexivity|].
  cbn [has_char split_sep]. intros Hs. apply orb_false_iff in Hs as [Hc Hs].
  rewrite Hc, (IH Hs). reflexivity.
Qed.

(** A slash separates the names before it from the names after it. *)
Lemma split_sep_app (s t : string) :
  split_sep (s +:+ String "/" t) = split_sep s ++ split_sep t.
Proof.
  induction s as [|c s IH]; [reflexivity|].
  rewrite append_cons. cbn [split_sep]. rewrite IH.
  destruct (bool_decide (c = "/"%char)); [reflexivity|].
  pose proof (split_sep_nonempty s) as Hne.
  destruct (split_sep s) as [|name names]; [contradiction|reflexivity].
Qed.

(** A character other than the slash is in a path when it is in one of
    its names. *)
Lemma has_char_split_sep (ch : ascii) (s : string) :
  ch <> "/"%char ->
  has_char ch s = false
  <-> Forall (fun name => has_char ch name = false) (split_sep s).
Proof.
  intros Hch. induction s as [|c s IH].
  - cbn. split; [repeat constructor|reflexivity].
  - cbn [has_char split_sep]. rewrite orb_false_iff, IH.
    destruct (decide (c = "/"%char)) as [->|Hc].
    + rewrite (bool_decide_eq_true_2 ("/"%char = "/"%char)) by reflexivity.
      rewrite Forall_cons. cbn.
      rewrite bool_decide_eq_false_2 by congruence. tauto.
    + rewrite (bool_decide_eq_false_2 (c = "/"%char)) by exact Hc.
      pose proof (split_sep_nonempty s) as Hne.
      destruct (split_sep s) as [|name names]; [contradiction|].
      rewrite !Forall_cons. cbn [has_char]. rewrite orb_false_iff. tauto.
Qed.

Lemma has_nul_components (s : string) :
  has_nul s = false
  <-> Forall (fun name => has_nul name = false) (components s).
Proof.
  unfold has_nul, components.
  rewrite (has_char_split_sep "000" s) by discriminate.
  apply has_char_empty_false.
Qed.

Lemma components_app (s t : string) :
  components (s +:+ String "/" t) = components s ++ components t.
Proof. unfold components. rewrite split_sep_app, filter_app. reflexivity. Qed.

Lemma ends_with_sep_inv (s : string) :
  ends_with_sep s = true -> exists s', s = s' +:+ "/".
Proof.
  induction s as [|c s IH]; [discriminate|].
  destruct s as [|c' s].
  - cbn. intros Hc. apply bool_decide_eq_true in Hc as ->.
    exists EmptyString. reflexivity.
  - intros Hs. destruct (IH Hs) as [s' Hs']. exists (String c s').
    rewrite append_cons, <- Hs'. reflexivity.
Qed.

(** A slash at the end of a path adds no name. *)
Lemma components_sep_end (s t : string) :
  ends_with_sep s = true -> components (s +:+ t) = components s ++ components t.
Proof.
  intros Hs. destruct (ends_with_sep_inv s Hs) as [s' ->].
  rewrite append_assoc. change ("/" +:+ t) with (String "/" t).
  rewrite components_app.
  change (s' +:+ "/") with (s' +:+ String "/" EmptyString).
  rewrite components_app. cbn. rewrite app_nil_r. reflexivity.
Qed.

(** The names of a joined path are the names of its two parts. *)
Lemma components_join (s t : string) :
  s <> EmptyString -> starts_with_sep t = false ->
  components (path_join s t) = components s ++ components t.
Proof.
  intros Hs Ht. unfold path_join. rewrite Ht.
  rewrite (bool_decide_eq_false_2 _ Hs), orb_false_l.
  destruct (ends_with_sep s) eqn:Hend.
  - apply components_sep_end, Hend.
  - change ("/" +:+ t) with (String "/" t). apply components_app.
Qed.

(** [../../<path>] goes two directories up and then through the names of
    [path]. *)
Lemma components_relative_dir (path : string) :
  components (relative_dir path) = ".." :: ".." :: components path.
Proof. reflexivity. Qed.

Lemma length_file_name (now : struct_time) :
  (3 <= String.length (file_name now))%nat.
Proof. unfold file_name. rewrite append_length. cbn. lia. Qed.

(** The file name is one name, and neither [.] nor [..]. *)
Lemma file_name_plain (now : struct_time) :
  gmtime_range now ->
  components (file_name now) = [file_name now]
  /\ is_dots (file_name now) = false.
Proof.
  intros Hnow. pose proof (length_file_name now) as Hlen.
  assert (Hne : forall s, (String.length s < 3)%nat -> file_name now <> s).
  { intros s Hs Heq. rewrite Heq in Hlen. lia. }
  split.
  - unfold components.
    rewrite split_sep_plain by (apply has_char_file_name; auto).
    rewrite filter_cons_True by (apply Hne; cbn; lia). reflexivity.
  - unfold is_dots.
    rewrite !bool_decide_eq_false_2 by (apply Hne; cbn; lia). reflexivity.
Qed.

(** The path of the file goes through the names of the directory and
    ends with the file name. *)
Lemma components_file_path (now : struct_time) (path : string) :
  gmtime_range now ->
  components (file_path now path)
  = components (relative_dir path) ++ [file_name now].
Proof.
  intros Hnow. unfold file_path.
  rewrite components_join; [|discriminate|apply file_name_no_sep].
  rewrite (proj1 (file_name_plain now Hnow)). reflexivity.
Qed.

Lemma has_nul_relative_dir (path : string) :
  has_nul (relative_dir path) = has_nul path.
Proof. reflexivity. Qed.

Lemma has_nul_file_path (now : struct_time) (path : string) :
  gmtime_range now -> has_nul (file_path now path) = has_nul path.
Proof.
  intros Hnow. rewrite file_path_spec. unfold has_nul.
  rewrite !has_char_app. rewrite (has_char_file_name "000" now Hnow) by auto.
  fold (has_nul (relative_dir path)). rewrite has_nul_relative_dir.
  destruct (ends_with_sep (relative_dir path)); cbn;
    rewrite ?orb_false_r; reflexivity.
Qed.

Lemma ends_with_sep_app (s t : string) :
  t <> EmptyString -> ends_with_sep (s +:+ t) = ends_with_sep t.
Proof.
  intros Ht. induction s as [|c s IH]; [reflexivity|].
  rewrite append_cons. cbn [ends_with_sep].
  destruct (s +:+ t) eqn:Hst; [|exact IH].
  destruct s; [cbn in Hst; contradiction|discriminate].
Qed.

Lemma file_path_no_sep_end (now : struct_time) (path : string) :
  ends_with_sep (file_path now path) = false.
Proof.
  rewrite file_path_spec. unfold file_name.
  rewrite <- !append_assoc. rewrite ends_with_sep_app by discriminate.
  reflexivity.
Qed.

Lemma file_path_relative (now : struct_time) (path : string) :
  starts_with_sep (file_path now path) = false.
Proof. rewrite file_path_spec. reflexivity. Qed.

End ArchiveFacts.

(** *** The walk of [os.makedirs] *)

Section DiskFacts.
Import Archive.
Context {StateDict : Type}.

Local Abbreviation fs := (fs StateDict).

Lemma enter_plain (here : list string) (name : string) :
  is_dots name = false -> enter here name = here ++ [name].
Proof.
  unfold is_dots, enter. intros Hd. apply orb_false_iff in Hd as [-> ->].
  reflexivity.
Qed.

Lemma way_from_app (here : list string) (names rest : list string) :
  way_from here (names ++ rest)
  = way_from here names ++ way_from (foldl enter here names) rest.
Proof.
  revert here. induction names as [|name names IH]; intros here; [reflexivity|].
  cbn [app way_from foldl]. rewrite IH.
  destruct (is_dots name); reflexivity.
Qed.

(** A path whose last name is a proper one leads through the place it
    leads to. *)
Lemma way_from_last (here : list string) (names : list string) (name : string) :
  last names = Some name -> is_dots name = false ->
  foldl enter here names ∈ way_from here names.
Proof.
  intros Hlast Hname. apply last_Some in Hlast as [front ->].
  rewrite way_from_app, foldl_app. cbn [way_from foldl]. rewrite Hname.
  apply elem_of_app. right. apply list_elem_of_here.
Qed.

(** [os.makedirs] keeps what there is and adds directories on its way
    only. *)
Lemma makedirs_from_grows (d : string) (names : list string)
    (here : list string) (disk disk1 : fs) (r : result unit) :
  makedirs_from d here names disk = (disk1, r) ->
  cwd disk1 = cwd disk
  /\ nodes disk ⊆ nodes disk1
  /\ (forall place x, nodes disk1 !! place = Some x ->
        nodes disk !! place = Some x
        \/ (x = Directory /\ place ∈ way_from here names)).
Proof.
  revert here disk. induction names as [|name names IH]; intros here disk.
  - cbn. intros [= <- <-]. repeat split; auto.
  - cbn [makedirs_from way_from]. destruct (has_nul name).
    { intros [= <- <-]. repeat split; auto. }
    destruct (is_dots name).
    { apply IH. }
    destruct (nodes disk !! enter here name) as [[|content]|] eqn:Hnode.
    + intros Hrun. destruct (IH _ _ Hrun) as (Hcwd & Hsub & Hnew).
      repeat split; [exact Hcwd|exact Hsub|].
      intros place x Hx. destruct (Hnew place x Hx) as [Hold|[-> Hin]]; auto.
      right. split; [reflexivity|]. apply list_elem_of_further, Hin.
    + intros [= <- <-]. repeat split; auto.
    + intros Hrun. destruct (IH _ _ Hrun) as (Hcwd & Hsub & Hnew).
      cbn [cwd nodes] in *.
      repeat split; [exact Hcwd| |].
      * etrans; [|exact Hsub]. apply insert_subseteq, Hnode.
      * intros place x Hx. destruct (Hnew place x Hx) as [Hold|[-> Hin]].
        -- destruct (decide (enter here name = place)) as [<-|Hne].
           ++ rewrite lookup_insert_eq in Hold. injection Hold as <-.
              right. split; [reflexivity|]. apply list_elem_of_here.
           ++ rewrite lookup_insert_ne in Hold by exact Hne. auto.
        -- right. split; [reflexivity|]. apply list_elem_of_further, Hin.
Qed.

(** When it succeeds, every place on its way is a directory afterwards
    and none was a regular file. *)
Lemma makedirs_from_ok (d : string) (names : list string)
    (here : list string) (disk disk1 : fs) :
  makedirs_from d here names disk = (disk1, Ret ()) ->
  forall place, place ∈ way_from here names ->
    nodes disk1 !! place = Some Directory
    /\ forall content, nodes disk !! place <> Some (File content).
Proof.
  revert here disk. induction names as [|name names IH]; intros here disk.
  - cbn. intros _ place Hin. inversion Hin.
  - cbn [makedirs_from way_from]. destruct (has_nul name); [discriminate|].
    destruct (is_dots name).
    { apply IH. }
    destruct (nodes disk !! enter here name) as [[|content]|] eqn:Hnode.
    + intros Hrun place Hin.
      destruct (makedirs_from_grows _ _ _ _ _ _ Hrun) as (_ & Hsub & _).
      apply elem_of_cons in Hin as [->|Hin]; [|exact (IH _ _ Hrun place Hin)].
      split; [|intros content; rewrite Hnode; discriminate].
      exact (lookup_weaken _ _ _ _ Hnode Hsub).
    + discriminate.
    + intros Hrun place Hin.
      destruct (makedirs_from_grows _ _ _ _ _ _ Hrun) as (_ & Hsub & _).
      cbn [nodes] in Hsub.
      apply elem_of_cons in Hin as [->|Hin].
      * split; [|intros content; rewrite Hnode; discriminate].
        apply (lookup_weaken _ _ _ _ (lookup_insert_eq _ _ _) Hsub).
      * destruct (IH _ _ Hrun place Hin) as [Hdir Hfile].
        split; [exact Hdir|]. intros content Hold.
        apply (Hfile content). cbn [nodes].
        rewrite lookup_insert_ne; [exact Hold|]. intros <-. congruence.
Qed.

(** Where every place on the way is a directory already, there is
    nothing to do. *)
Lemma makedirs_from_again (d : string) (names : list string)
    (here : list string) (disk : fs) :
  Forall (fun name => has_nul name = false) names ->
  (forall place, place ∈ way_from here names ->
     nodes disk !! place = Some Directory) ->
  makedirs_from d here names disk = (disk, Ret ()).
Proof.
  intros Hnul. revert here.
  induction Hnul as [|name names Hname _ IH]; intros here Hway; [reflexivity|].
  cbn [makedirs_from way_from] in *. rewrite Hname. destruct (is_dots name).
  { apply IH, Hway. }
  rewrite (Hway (enter here name)) by apply list_elem_of_here.
  apply IH. intros place Hin. apply Hway, list_elem_of_further, Hin.
Qed.

(** It succeeds on names without a NUL character only. *)
Lemma makedirs_from_no_nul (d : string) (names : list string)
    (here : list string) (disk disk1 : fs) :
  makedirs_from d here names disk = (disk1, Ret ()) ->
  Forall (fun name => has_nul name = false) names.
Proof.
  revert here disk. induction names as [|name names IH]; intros here disk;
    [constructor|].
  cbn [makedirs_from]. destruct (has_nul name) eqn:Hname; [discriminate|].
  intros Hrun. constructor; [exact Hname|]. revert Hrun.
  destruct (is_dots name); [apply IH|].
  destruct (nodes disk !! enter here name) as [[|content]|];
    [apply IH|discriminate|apply IH].
Qed.

(** Where no place on the way is a regular file, it succeeds. *)
Lemma makedirs_from_clear (d : string) (names : list string)
    (here : list string) (disk : fs) :
  Forall (fun name => has_nul name = false) names ->
  (forall place content, place ∈ way_from here names ->
     nodes disk !! place <> Some (File content)) ->
  exists disk1, makedirs_from d here names disk = (disk1, Ret ()).
Proof.
  intros Hnul. revert here disk.
  induction Hnul as [|name names Hname _ IH]; intros here disk Hway.
  { eexists. reflexivity. }
  cbn [makedirs_from way_from] in *. rewrite Hname. destruct (is_dots name).
  { apply IH, Hway. }
  destruct (nodes disk !! enter here name) as [[|content]|] eqn:Hnode.
  - apply IH. intros place content Hin. apply Hway, list_elem_of_further, Hin.
  - exfalso. exact (Hway _ content (list_elem_of_here _ _) Hnode).
  - apply IH. intros place content Hin. cbn [nodes].
    destruct (decide (enter here name = place)) as [<-|Hne].
    + rewrite lookup_insert_eq. discriminate.
    + rewrite lookup_insert_ne by exact Hne.
      apply Hway, list_elem_of_further, Hin.
Qed.

(** Names that lead through directories lead where they say. *)
Lemma walk_dirs_way (names : list string) (here : list string) (disk : fs) :
  Forall (fun name => has_nul name = false) names ->
  (forall place, place ∈ way_from here names ->
     nodes disk !! place = Some Directory) ->
  walk_dirs disk here names = Some (foldl enter here names).
Proof.
  intros Hnul. revert here.
  induction Hnul as [|name names Hname _ IH]; intros here Hway; [reflexivity|].
  cbn [walk_dirs way_from foldl] in *. rewrite Hname. destruct (is_dots name).
  { apply IH, Hway. }
  rewrite (Hway (enter here name)) by apply list_elem_of_here.
  apply IH. intros place Hin. apply Hway, list_elem_of_further, Hin.
Qed.

(** [os.makedirs] goes through the directories that exist without a
    change. *)
Lemma makedirs_from_walk (d : string) (names rest : list string)
    (here directory : list string) (disk : fs) :
  walk_dirs disk here names = Some directory ->
  makedirs_from d here (names ++ rest) disk
  = makedirs_from d directory rest disk.
Proof.
  revert here. induction names as [|name names IH]; intros here.
  { cbn. intros [= ->]. reflexivity. }
  cbn [walk_dirs app makedirs_from]. destruct (has_nul name); [discriminate|].
  destruct (is_dots name).
  { apply IH. }
  destruct (nodes disk !! enter here name) as [[|content]|]; try discriminate.
  apply IH.
Qed.

(** A regular file where the directory should be: [FileExistsError],
    and the disk as it was. *)
Lemma makedirs_file (d : string) (disk : fs) (content : StateDict) :
  lookup_path disk d = Some (File content) ->
  makedirs d disk = (disk, Raise (FileExistsError d)).
Proof.
  unfold lookup_path, makedirs.
  destruct (last (components d)) as [name|] eqn:Hlast; [|discriminate].
  cbn. destruct (has_nul name) eqn:Hnul; [discriminate|].
  destruct (is_dots name) eqn:Hname; [discriminate|].
  destruct (walk_dirs disk (start disk d) (removelast (components d)))
    as [directory|] eqn:Hwalk; [|discriminate].
  cbn. intros Hnode.
  assert (Hd : d <> EmptyString) by (intros ->; discriminate).
  rewrite (bool_decide_eq_false_2 _ Hd).
  apply last_Some in Hlast as [front Hfront]. rewrite Hfront in *.
  rewrite removelast_last in Hwalk.
  rewrite (makedirs_from_walk d front [name] _ directory disk Hwalk).
  cbn [makedirs_from]. rewrite Hnul, Hname, Hnode. reflexivity.
Qed.

End DiskFacts.

(** *** [save_accepted_model] *)

Section SaveFacts.
Import Archive.
Context {Model StateDict : Type}.
Variable state_dict : Model -> StateDict.

Local Abbreviation fs := (fs StateDict).
Local Abbreviation save := (save_accepted_model state_dict).

(** The place of the file is the place of the directory and the file
    name. *)
Lemma resolve_file_path (now : struct_time) (path : string) (disk : fs) :
  gmtime_range now ->
  resolve disk (file_path now path)
  = resolve disk (relative_dir path) ++ [file_name now].
Proof.
  intros Hnow. unfold resolve, start.
  rewrite file_path_relative, components_file_path by exact Hnow.
  rewrite foldl_app. cbn [foldl].
  apply enter_plain, file_name_plain, Hnow.
Qed.

(** Opening the file once the directories are there. *)
Lemma writable_file_path (now : struct_time) (path : string) (disk : fs) :
  gmtime_range now -> has_nul path = false ->
  (forall place, place ∈ way disk (relative_dir path) ->
     nodes disk !! place = Some Directory) ->
  writable_file (file_path now path) disk
  = match nodes disk !! resolve disk (file_path now path) with
    | Some Directory => None
    | _ => Some (resolve disk (file_path now path))
    end.
Proof.
  intros Hnow Hnul Hway. unfold writable_file.
  pose proof (proj1 (has_nul_components (relative_dir path)) Hnul) as Hnames.
  rewrite has_nul_file_path, Hnul, file_path_no_sep_end by exact Hnow.
  rewrite components_file_path by exact Hnow.
  rewrite last_snoc, removelast_last. cbn.
  rewrite (proj2 (file_name_plain now Hnow)).
  unfold start at 1. rewrite file_path_relative.
  rewrite (walk_dirs_way (components (relative_dir path)) (cwd disk) disk
             Hnames Hway).
  cbn.
  rewrite resolve_file_path by exact Hnow.
  rewrite enter_plain by apply file_name_plain, Hnow.
  reflexivity.
Qed.

(** The call, step by step: what [os.makedirs] leaves, and then the
    file. *)
Lemma save_accepted_model_steps (now : struct_time) (path : string)
    (model : Model) (disk disk1 : fs) (r : result unit) :
  gmtime_range now ->
  makedirs_from (relative_dir path) (cwd disk)
    (components (relative_dir path)) disk = (disk1, r) ->
  save now path model disk
  = match r with
    | Raise e => (disk1, Raise e)
    | Ret _ =>
        match nodes disk1 !! resolve disk (file_path now path) with
        | Some Directory => (disk1, Raise RuntimeError)
        | _ =>
            (Fs (cwd disk)
                (<[resolve disk (file_path now path) := File (state_dict model)]>
                   (nodes disk1)),
             Ret None)
        end
    end.
Proof.
  intros Hnow Hrun. unfold save_accepted_model, makedirs.
  rewrite bool_decide_eq_false_2 by discriminate.
  change (start disk (relative_dir path)) with (cwd disk). rewrite Hrun.
  destruct r as [[]|e]; [|reflexivity].
  destruct (makedirs_from_grows _ _ _ _ _ _ Hrun) as (Hcwd & _ & _).
  assert (Hnul : has_nul path = false).
  { rewrite <- has_nul_relative_dir. apply has_nul_components.
    exact (makedirs_from_no_nul _ _ _ _ _ Hrun). }
  assert (Hres : forall s, resolve disk1 s = resolve disk s)
    by (intros s; unfold resolve, start; rewrite Hcwd; reflexivity).
  assert (Hway : forall place, place ∈ way disk1 (relative_dir path) ->
                   nodes disk1 !! place = Some Directory).
  { intros place Hin. unfold way, start in Hin. rewrite Hcwd in Hin.
    exact (proj1 (makedirs_from_ok _ _ _ _ _ Hrun place Hin)). }
  unfold torch_save. rewrite (writable_file_path now path disk1 Hnow Hnul Hway).
  rewrite Hres, Hcwd.
  destruct (nodes disk1 !! resolve disk (file_path now path)) as [[|content]|];
    reflexivity.
Qed.

(** A call that has returned has gone through both steps. *)
Lemma save_accepted_model_returned (now : struct_time) (path : string)
    (model : Model) (disk : fs) (v : option string) :
  gmtime_range now ->
  (save now path model disk).2 = Ret v ->
  v = None
  /\ has_nul path = false
  /\ exists disk1,
       makedirs_from (relative_dir path) (cwd disk)
         (components (relative_dir path)) disk = (disk1, Ret ())
       /\ nodes disk1 !! resolve disk (file_path now path) <> Some Directory
       /\ save now path model disk
          = (Fs (cwd disk)
                (<[resolve disk (file_path now path) := File (state_dict model)]>
                   (nodes disk1)),
             Ret None).
Proof.
  intros Hnow Hret.
  destruct (makedirs_from (relative_dir path) (cwd disk)
              (components (relative_dir path)) disk) as [disk1 r] eqn:Hrun.
  pose proof (save_accepted_model_steps now path model disk disk1 r Hnow Hrun)
    as Hsave.
  rewrite Hsave in Hret. destruct r as [[]|e]; [|discriminate].
  assert (Hnul : has_nul path = false).
  { rewrite <- has_nul_relative_dir. apply has_nul_components.
    exact (makedirs_from_no_nul _ _ _ _ _ Hrun). }
  destruct (nodes disk1 !! resolve disk (file_path now path)) as [[|content]|]
    eqn:Hnode; cbn in Hret; try discriminate;
    (split; [congruence|]); (split; [exact Hnul|]);
    exists disk1; (split; [reflexivity|]);
    (split; [rewrite Hnode; discriminate|]); exact Hsave.
Qed.

(** The calls that return are those that the file system lets
    complete. *)
Lemma save_accepted_model_completes (now : struct_time) (path : string)
    (model : Model) (disk : fs) :
  gmtime_range now ->
  (save now path model disk).2 = Ret None <-> can_archive now path disk.
Proof.
  intros Hnow. split.
  - intros Hret.
    destruct (save_accepted_model_returned now path model disk None Hnow Hret)
      as (_ & Hnul & disk1 & Hrun & Hnode & _).
    destruct (makedirs_from_grows _ _ _ _ _ _ Hrun) as (_ & Hsub & _).
    pose proof (makedirs_from_ok _ _ _ _ _ Hrun) as Hok.
    split; [exact Hnul|]. split; [|split].
    + intros place content Hin. exact (proj2 (Hok place Hin) content).
    + intros Hin. apply Hnode. exact (proj1 (Hok _ Hin)).
    + intros Hdir. apply Hnode. exact (lookup_weaken _ _ _ _ Hdir Hsub).
  - intros (Hnul & Hfiles & Hnotway & Hnotdir).
    destruct (makedirs_from_clear (relative_dir path)
                (components (relative_dir path)) (cwd disk) disk
                (proj1 (has_nul_components (relative_dir path)) Hnul) Hfiles)
      as [disk1 Hrun].
    rewrite (save_accepted_model_steps now path model disk disk1 _ Hnow Hrun).
    destruct (makedirs_from_grows _ _ _ _ _ _ Hrun) as (_ & _ & Hnew).
    destruct (nodes disk1 !! resolve disk (file_path now path)) as [[|content]|]
      eqn:Hnode; try reflexivity.
    exfalso. destruct (Hnew _ _ Hnode) as [Hold|[_ Hin]]; auto.
Qed.

(** What [save_accepted_model] leaves in a file is what was there or the
    state dict it was given. *)
Lemma save_accepted_model_files (now : struct_time) (path : string)
    (model : Model) (disk : fs) (place : list string) (sd : StateDict) :
  nodes (save now path model disk).1 !! place = Some (File sd) ->
  nodes disk !! place = Some (File sd) \/ sd = state_dict model.
Proof.
  unfold save_accepted_model.
  destruct (makedirs (relative_dir path) disk) as [disk1 r] eqn:Hmk.
  assert (Hkept : forall sd', nodes disk1 !! place = Some (File sd') ->
                    nodes disk !! place = Some (File sd')).
  { unfold makedirs in Hmk.
    destruct (bool_decide (relative_dir path = EmptyString));
      [injection Hmk as <- _; auto|].
    destruct (makedirs_from_grows _ _ _ _ _ _ Hmk) as (_ & _ & Hnew).
    intros sd' Hsd'. destruct (Hnew _ _ Hsd') as [Hold|[Hdir _]];
      [exact Hold|discriminate]. }
  destruct r as [[]|e]; cbn [fst]; [|auto].
  unfold torch_save.
  destruct (writable_file (file_path now path) disk1) as [file|]; cbn [fst nodes];
    [|auto].
  destruct (decide (file = place)) as [->|Hne].
  - rewrite lookup_insert_eq. intros [= <-]. auto.
  - rewrite lookup_insert_ne by exact Hne. auto.
Qed.


End SaveFacts.

Lemma noon_in_range : Archive.gmtime_range Examples.noon.
Proof. unfold Archive.gmtime_range. cbn. lia. Qed.



(** ** The coordinator loop and the promotion barrier *)

Section CoordinatorFacts.
Import Coordinator.
Context {Model StateDict K : Type} `{Countable K}.
Variable ops : ModelOps Model StateDict.
Variable c : common K.
Variable play_game : Z -> Model -> Model -> Z.
Variable a : args.

Local Abbreviation state := (state Model StateDict K).
Local Abbreviation step := (coordinator_step ops c play_game a).
Local Abbreviation inv := (barrier_invariant ops c).

(** The ten inequalities between the five keys. *)
Lemma distinct_keys_ne :
  distinct_keys c ->
  MODEL_STATE_DICT c <> SELF_PLAY_SIGNAL c
  /\ MODEL_STATE_DICT c <> TRAINING_SIGNAL c
  /\ MODEL_STATE_DICT c <> NUM_SELF_PLAY_WORKERS c
  /\ MODEL_STATE_DICT c <> NUM_TRAINING_WORKERS c
  /\ SELF_PLAY_SIGNAL c <> TRAINING_SIGNAL c
  /\ SELF_PLAY_SIGNAL c <> NUM_SELF_PLAY_WORKERS c
  /\ SELF_PLAY_SIGNAL c <> NUM_TRAINING_WORKERS c
  /\ TRAINING_SIGNAL c <> NUM_SELF_PLAY_WORKERS c
  /\ TRAINING_SIGNAL c <> NUM_TRAINING_WORKERS c
  /\ NUM_SELF_PLAY_WORKERS c <> NUM_TRAINING_WORKERS c.
Proof.
  unfold distinct_keys. intros Hnd.
  repeat match goal with
         | Hn : NoDup (_ :: _) |- _ => apply NoDup_cons in Hn as [? Hn]
         | Hn : _ ∉ _ :: _ |- _ => apply not_elem_of_cons in Hn as [? Hn]
         end.
  repeat split; assumption.
Qed.

(** Unfolds the invariant and the state it is about. *)
Ltac open_invariant :=
  unfold barrier_invariant, published, quiet, signal_set,
    signal_clear, assign, set_shared, goto, crash, local, read in *;
  cbn [pc current_model new_model_candidate num_self_play_workers
       num_training_workers shared_variables new_model_queue disk
       self_play_reloading training_reloading] in *.

(** Settles the lookups in a dictionary after assignments to other keys. *)
Ltac settle_lookups :=
  repeat first
    [ rewrite lookup_insert_eq
    | rewrite lookup_insert_ne by (assumption || (apply not_eq_sym; assumption)) ];
  repeat match goal with
    | Hs : ?m !! ?k = Some _ |- context [?m !! ?k] => rewrite Hs
    end.

(** A step of a worker leaves the coordinator's variables and the disk
    alone, and of the shared dictionary it touches the two counters
    only. *)
Lemma worker_step_frame (st : state) (ev : event Model) :
  (forall now, ev <> CoordinatorStep now) ->
  pc (system_step ops c play_game a st ev) = pc st
  /\ current_model (system_step ops c play_game a st ev) = current_model st
  /\ new_model_candidate (system_step ops c play_game a st ev)
     = new_model_candidate st
  /\ num_self_play_workers (system_step ops c play_game a st ev)
     = num_self_play_workers st
  /\ num_training_workers (system_step ops c play_game a st ev)
     = num_training_workers st
  /\ disk (system_step ops c play_game a st ev) = disk st
  /\ (forall key, key <> NUM_SELF_PLAY_WORKERS c -> key <> NUM_TRAINING_WORKERS c ->
        shared_variables (system_step ops c play_game a st ev) !! key
        = shared_variables st !! key).
Proof.
  intros Hev.
  destruct ev as [now| | |m| | | |]; [exfalso; exact (Hev now eq_refl)|..];
    cbn [system_step];
    unfold worker_ack, worker_observes, worker_decrements, propose,
      set_reloading, assign, set_shared, reloading, signal_of, counter_of;
    repeat case_match;
    cbn [pc current_model new_model_candidate num_self_play_workers
         num_training_workers shared_variables new_model_queue disk];
    repeat split; try reflexivity;
    intros key Hk1 Hk2; rewrite lookup_insert_ne by congruence; reflexivity.
Qed.

(** The invariant looks at the statement the coordinator is at, at the
    candidate in hand and at three shared variables. *)
Lemma barrier_invariant_frame (st st' : state) :
  pc st' = pc st ->
  new_model_candidate st' = new_model_candidate st ->
  (forall key, key <> NUM_SELF_PLAY_WORKERS c -> key <> NUM_TRAINING_WORKERS c ->
     shared_variables st' !! key = shared_variables st !! key) ->
  distinct_keys c ->
  inv st -> inv st'.
Proof.
  intros Hpc Hcand Hsv Hd Hinv.
  destruct (distinct_keys_ne Hd)
    as (Hms & Hmt & Hmn & Hmm & Hst & Hsn & Hsm & Htn & Htm & Hnm).
  unfold barrier_invariant, published, quiet, signal_set, signal_clear in *.
  rewrite Hpc, Hcand, !Hsv by assumption. exact Hinv.
Qed.

(** Every statement of [start] keeps the invariant. *)
Lemma coordinator_step_invariant (now : Archive.struct_time) (st : state) :
  distinct_keys c -> inv st -> inv (step now st).
Proof.
  intros Hd Hinv.
  destruct (distinct_keys_ne Hd)
    as (Hms & Hmt & Hmn & Hmm & Hst & Hsn & Hsm & Htn & Htm & Hnm).
  destruct st as [l cur cand nsp ntr sv q d rs rt].
  unfold coordinator_step.
  cbn [pc current_model new_model_candidate num_self_play_workers
       num_training_workers shared_variables new_model_queue disk
       self_play_reloading training_reloading].
  destruct l.
  all: try (open_invariant; repeat case_match; open_invariant; simplify_eq;
            settle_lookups;
            solve [intuition (try discriminate; try congruence; eauto)]).
Qed.

(** So does every step of the program. *)
Lemma system_step_invariant (st : state) (ev : event Model) :
  distinct_keys c -> inv st -> inv (system_step ops c play_game a st ev).
Proof.
  intros Hd Hinv.
  assert (Hworker : (forall now, ev <> CoordinatorStep now) ->
                    inv (system_step ops c play_game a st ev)).
  { intros Hev.
    destruct (worker_step_frame st ev Hev) as (Hpc & _ & Hcand & _ & _ & _ & Hsv).
    exact (barrier_invariant_frame st _ Hpc Hcand Hsv Hd Hinv). }
  destruct ev as [now| | |m| | | |];
    [apply coordinator_step_invariant; assumption|..];
    apply Hworker; discriminate.
Qed.

Lemma initial_invariant (st : state) : initial c st -> inv st.
Proof.
  intros (Hpc & Hcand & Hnsp & Hntr & Hs & Ht).
  destruct st as [l cur cand nsp ntr sv q d rs rt].
  open_invariant. subst.
  split; [intros [Hset|Hset]; congruence|].
  split; assumption.
Qed.

Lemma run_invariant (evs : list (event Model)) (st : state) :
  distinct_keys c -> inv st -> inv (run ops c play_game a st evs).
Proof.
  intros Hd. revert st.
  induction evs as [|ev evs IH]; intros st Hinv; [exact Hinv|].
  apply IH, system_step_invariant; assumption.
Qed.

(** The invariant holds in every state the program reaches. *)
Lemma reachable_invariant (st : state) :
  distinct_keys c -> reachable ops c play_game a st -> inv st.
Proof.
  intros Hd (st0 & evs & Hinit & ->).
  apply run_invariant; [assumption|].
  apply initial_invariant; assumption.
Qed.

(** C7: in every reachable state in which a signal flag is set, the
    shared slot [MODEL_STATE_DICT] holds the state dict of the candidate
    being promoted; it already does when the coordinator is about to set
    the first flag (line 63) and the second (line 64). *)
Theorem model_published_before_signals (st : state) :
  distinct_keys c ->
  reachable ops c play_game a st ->
  (signal_set (SELF_PLAY_SIGNAL c) st \/ signal_set (TRAINING_SIGNAL c) st ->
   published ops c st)
  /\ (pc st = L63_signal_self_play \/ pc st = L64_signal_training ->
      published ops c st).
Proof.
  intros Hd Hreach.
  destruct (reachable_invariant st Hd Hreach) as [Hpub Hpc].
  split; [exact Hpub|].
  intros [Hl|Hl]; rewrite Hl in Hpc; tauto.
Qed.

(** C8: the statement that calls [evaluate] leaves the shared dictionary,
    the coordinator's current model, the queue and the disk as they were;
    when [evaluate] returns false the coordinator is back at the top of
    the loop in an otherwise unchanged state, and it enters the accept
    branch exactly when [evaluate] returns true. *)
Theorem evaluate_leaves_state (now : Archive.struct_time) (st : state)
    (candidate : Model) :
  pc st = L55_evaluate ->
  new_model_candidate st = Some candidate ->
  let verdict := Tournament.evaluate play_game a (current_model st) candidate in
  let st' := step now st in
  shared_variables st' = shared_variables st
  /\ current_model st' = current_model st
  /\ new_model_queue st' = new_model_queue st
  /\ disk st' = disk st
  /\ (verdict = Ret false -> st' = goto L44_get st)
  /\ (in_accept_branch (pc st') = true <-> verdict = Ret true).
Proof.
  intros Hpc Hcand verdict st'. subst st'.
  unfold coordinator_step. rewrite Hpc, Hcand. cbn [local]. fold verdict.
  destruct verdict as [[|]|e]; cbn; repeat split; try reflexivity;
    intros; congruence.
Qed.

(** C9: when the queue is empty the statement that reads it changes
    nothing, and however often the coordinator polls, the state stays as
    it is: no evaluation, no write to the shared dictionary, no crash. *)
Theorem empty_queue_is_noop (now : Archive.struct_time) (st : state)
    (polls : list Archive.struct_time) :
  pc st = L44_get ->
  new_model_queue st = [] ->
  step now st = st
  /\ run ops c play_game a st (CoordinatorStep <$> polls) = st.
Proof.
  intros Hpc Hq.
  assert (Hstep : forall t, step t st = st).
  { intros t. unfold coordinator_step. rewrite Hpc, Hq. reflexivity. }
  split; [apply Hstep|].
  induction polls as [|t polls IH]; [reflexivity|].
  cbn [fmap list_fmap run foldl system_step].
  rewrite Hstep. exact IH.
Qed.

(** The test of line 71 lets the coordinator out of the loop as soon as
    the first counter it reads is not positive; the other counter is not
    read. *)
Lemma wait_exits_on_self_play (now : Archive.struct_time) (st : state) (n : Z) :
  pc st = L71_wait_self_play ->
  shared_variables st !! NUM_SELF_PLAY_WORKERS c = Some (VInt n) ->
  n <= 0 ->
  step now st = goto L75_clear_self_play st.
Proof.
  intros Hpc Hn Hle. unfold coordinator_step, read. rewrite Hpc, Hn. cbn.
  rewrite bool_decide_eq_false_2 by lia. reflexivity.
Qed.

(** It also lets it out when the second counter is not positive, whatever
    the first. *)
Lemma wait_exits_on_training (now : Archive.struct_time) (st : state) (n : Z) :
  pc st = L71_wait_training ->
  shared_variables st !! NUM_TRAINING_WORKERS c = Some (VInt n) ->
  n <= 0 ->
  step now st = goto L75_clear_self_play st.
Proof.
  intros Hpc Hn Hle. unfold coordinator_step, read. rewrite Hpc, Hn. cbn.
  rewrite bool_decide_eq_false_2 by lia. reflexivity.
Qed.

(** The coordinator sleeps only when both counters were read positive. *)
Lemma wait_goes_on (now : Archive.struct_time) (st : state) :
  pc st = L71_wait_training ->
  pc (step now st) = L72_sleep ->
  pending (NUM_TRAINING_WORKERS c) st.
Proof.
  intros Hpc. unfold coordinator_step, read, pending. rewrite Hpc.
  destruct (shared_variables st !! NUM_TRAINING_WORKERS c) as [[n|sd]|];
    cbn; try discriminate.
  case_bool_decide; cbn; [|discriminate].
  intros _. exists n. split; [reflexivity|lia].
Qed.

End CoordinatorFacts.

(** ** The program run on the concrete collaborators *)

Lemma example_keys_distinct : Coordinator.distinct_keys Examples.keys.
Proof.
  unfold Coordinator.distinct_keys.
  apply (bool_decide_unpack _). vm_compute. exact I.
Qed.

Lemma start_state_initial : Coordinator.initial Examples.keys Examples.start_state.
Proof. repeat split. Qed.

Lemma start_state_reaches (evs : list (Coordinator.event Z)) :
  Coordinator.reachable Examples.ops Examples.keys Examples.stronger_wins
    Examples.args20
    (Coordinator.run Examples.ops Examples.keys Examples.stronger_wins
       Examples.args20 Examples.start_state evs).
Proof.
  exists Examples.start_state, evs. split; [apply start_state_initial|reflexivity].
Qed.

(** C1, at a failing input: two self-play workers and one training
    worker.  The coordinator accepts model 1 and sets both signals; the
    two self-play workers acknowledge and the training worker does not.
    With [NUM_SELF_PLAY_WORKERS] at 0 and [NUM_TRAINING_WORKERS] still at 1
    the test of line 71 fails, the coordinator leaves the wait loop and
    clears both signal flags, and goes on to restore the counters. *)
Theorem barrier_released_while_training_pending :
  let waiting :=
    Coordinator.run Examples.ops Examples.keys Examples.stronger_wins
      Examples.args20 Examples.start_state
      (replicate 8 (Coordinator.CoordinatorStep Examples.noon)
       ++ [Coordinator.SelfPlayWorkerAck; Coordinator.SelfPlayWorkerAck]) in
  let st :=
    Coordinator.run Examples.ops Examples.keys Examples.stronger_wins
      Examples.args20 Examples.start_state Examples.self_play_acks_only in
  Coordinator.initial Examples.keys Examples.start_state
  /\ Coordinator.pc waiting = Coordinator.L71_wait_self_play
  /\ Coordinator.shared_variables waiting !! "num_self_play_workers"
     = Some (Coordinator.VInt 0)
  /\ Coordinator.shared_variables waiting !! "num_training_workers"
     = Some (Coordinator.VInt 1)
  /\ Coordinator.pc st = Coordinator.L79_restore_self_play
  /\ Coordinator.shared_variables st !! "self_play_signal"
     = Some (Coordinator.VInt 0)
  /\ Coordinator.shared_variables st !! "training_signal"
     = Some (Coordinator.VInt 0)
  /\ Coordinator.shared_variables st !! "num_training_workers"
     = Some (Coordinator.VInt 1).
Proof.
  split; [apply start_state_initial|].
  vm_compute. repeat split.
Qed.

(** C6, at a failing input: two self-play workers and one training
    worker, the counters at 2 and 1.  The coordinator accepts model 1,
    sets both signals and reads 2 and 1 at lines 67 and 68.  The training
    worker sees its signal set and starts to reload the model; the two
    self-play workers acknowledge.  The coordinator leaves the wait loop
    with the training counter still at 1, clears the signals and writes
    2 and 1 back (lines 75-80).  Then the training worker does its
    decrement.  When the accept branch has run to its end and the
    coordinator is back at line 44, both signals are 0 and
    [NUM_TRAINING_WORKERS] is 0, not the 1 that was read at line 68. *)
Theorem promotion_leaves_counter_decremented :
  Coordinator.initial Examples.keys Examples.start_state
  /\ Coordinator.shared_variables Examples.start_state !! "num_self_play_workers"
     = Some (Coordinator.VInt 2)
  /\ Coordinator.shared_variables Examples.start_state !! "num_training_workers"
     = Some (Coordinator.VInt 1)
  /\ Coordinator.pc Examples.at_the_wait = Coordinator.L71_wait_self_play
  /\ Coordinator.num_self_play_workers Examples.at_the_wait
     = Some (Coordinator.VInt 2)
  /\ Coordinator.num_training_workers Examples.at_the_wait
     = Some (Coordinator.VInt 1)
  /\ Coordinator.pc Examples.after_the_restore = Coordinator.L83_save
  /\ Coordinator.shared_variables Examples.after_the_restore
       !! "num_self_play_workers" = Some (Coordinator.VInt 2)
  /\ Coordinator.shared_variables Examples.after_the_restore
       !! "num_training_workers" = Some (Coordinator.VInt 1)
  /\ Coordinator.training_reloading Examples.after_the_restore = 1%nat
  /\ Coordinator.pc Examples.after_the_late_decrement = Coordinator.L44_get
  /\ Coordinator.shared_variables Examples.after_the_late_decrement
       !! "self_play_signal" = Some (Coordinator.VInt 0)
  /\ Coordinator.shared_variables Examples.after_the_late_decrement
       !! "training_signal" = Some (Coordinator.VInt 0)
  /\ Coordinator.shared_variables Examples.after_the_late_decrement
       !! "num_self_play_workers" = Some (Coordinator.VInt 2)
  /\ Coordinator.num_training_workers Examples.after_the_late_decrement
     = Some (Coordinator.VInt 1)
  /\ Coordinator.shared_variables Examples.after_the_late_decrement
       !! "num_training_workers" = Some (Coordinator.VInt 0).
Proof.
  split; [apply start_state_initial|].
  vm_compute. repeat split.
Qed.

(** The counters are read after the signals are set (lines 63-68): a
    self-play worker that acknowledges in between is not counted.  The
    promotion that follows ends with [NUM_SELF_PLAY_WORKERS] at 1, the
    value read, where it was 2 before the promotion. *)
Lemma early_ack_is_snapshotted :
  Coordinator.shared_variables Examples.start_state !! "num_self_play_workers"
  = Some (Coordinator.VInt 2)
  /\ Coordinator.pc Examples.after_the_early_ack = Coordinator.L44_get
  /\ Coordinator.num_self_play_workers Examples.after_the_early_ack
     = Some (Coordinator.VInt 1)
  /\ Coordinator.shared_variables Examples.after_the_early_ack
       !! "num_self_play_workers" = Some (Coordinator.VInt 1)
  /\ Coordinator.shared_variables Examples.after_the_early_ack
       !! "num_training_workers" = Some (Coordinator.VInt 1).
Proof. vm_compute. repeat split. Qed.

(** The state in which the first signal has just been set. *)
Lemma model_published_before_signals_witness :
  Coordinator.distinct_keys Examples.keys
  /\ Coordinator.reachable Examples.ops Examples.keys Examples.stronger_wins
       Examples.args20 Examples.signalled_state
  /\ Coordinator.published Examples.ops Examples.keys Examples.signalled_state.
Proof.
  split; [apply example_keys_distinct|].
  split; [apply start_state_reaches|].
  apply (proj1 (model_published_before_signals Examples.ops Examples.keys
           Examples.stronger_wins Examples.args20 Examples.signalled_state
           example_keys_distinct (start_state_reaches _))).
  left. vm_compute. reflexivity.
Defined.

(** A candidate that only draws is rejected and nothing changes. *)
Lemma evaluate_leaves_state_witness :
  Coordinator.pc Examples.evaluating_state = Coordinator.L55_evaluate
  /\ Coordinator.new_model_candidate Examples.evaluating_state = Some 1
  /\ Coordinator.shared_variables
       (Coordinator.coordinator_step Examples.ops Examples.keys
          Examples.all_draws Examples.args20 Examples.noon
          Examples.evaluating_state)
     = Coordinator.shared_variables Examples.evaluating_state.
Proof.
  split; [reflexivity|]. split; [reflexivity|].
  apply (evaluate_leaves_state Examples.ops Examples.keys Examples.all_draws
           Examples.args20 Examples.noon Examples.evaluating_state 1
           eq_refl eq_refl).
Defined.

(** Polling with nothing on the queue. *)
Lemma empty_queue_is_noop_witness :
  Coordinator.pc Examples.idle_state = Coordinator.L44_get
  /\ Coordinator.new_model_queue Examples.idle_state = []
  /\ Coordinator.coordinator_step Examples.ops Examples.keys
       Examples.stronger_wins Examples.args20 Examples.noon Examples.idle_state
     = Examples.idle_state.
Proof.
  split; [reflexivity|]. split; [reflexivity|].
  apply (empty_queue_is_noop Examples.ops Examples.keys Examples.stronger_wins
           Examples.args20 Examples.noon Examples.idle_state [] eq_refl eq_refl).
Defined.

(** * Further properties *)

(** ** The episode runner, turn by turn *)

Section TurnFacts.
Import Episode Turns.
Context {Board Action Tensor Policy Value Model : Type}.
Variable game : Game Board Action.
Variable board_translator : BoardTranslator Board Tensor.
Variable move_translator : MoveTranslator Action.
Variable net : Network Model Tensor Policy Value.

Local Abbreviation turn := (play_turn game board_translator move_translator net).
Local Abbreviation loop := (play_loop game board_translator move_translator net).
Local Abbreviation from := (board_from game board_translator move_translator net).
Local Abbreviation at_turn := (board_at game board_translator move_translator net).

(** Swapping the two players shifts the turns by one. *)
Lemma mover_swap (p q : Model) (k : nat) : mover q p k = mover p q (S k).
Proof.
  unfold mover. rewrite Nat.even_succ, <- Nat.negb_even.
  destruct (Nat.even k); reflexivity.
Qed.

Lemma board_from_succ (board : Board) (p q : Model) (k : nat) :
  from board p q (S k) = turn (from board p q k) (mover p q k).
Proof.
  revert board p q. induction k as [|k IH]; intros board p q; [reflexivity|].
  change (from board p q (S (S k))) with (from (turn board p) q p (S k)).
  rewrite IH, mover_swap. reflexivity.
Qed.

(** The swap of line 147 makes the players move in turn. *)
Lemma board_at_from (p q : Model) (k : nat) :
  at_turn p q k = from (getInitBoard game) p q k.
Proof.
  induction k as [|k IH]; [reflexivity|].
  rewrite board_from_succ, <- IH. reflexivity.
Qed.

(** The [while] loop returns the first board of the sequence of turns on
    which the game has ended, when the fuel reaches that far. *)
Lemma play_loop_from (fuel : nat) (board : Board) (p q : Model) (final : Board) :
  loop fuel board p q = Some final
  <-> exists k, (k <= fuel)%nat
        /\ getGameEnded game (from board p q k) = true
        /\ (forall j, (j < k)%nat -> getGameEnded game (from board p q j) = false)
        /\ final = from board p q k.
Proof.
  revert board p q. induction fuel as [|fuel IH]; intros board p q.
  - cbn [play_loop]. destruct (getGameEnded game board) eqn:Hend; split.
    + intros [= <-]. exists O. repeat split; [lia|exact Hend|intros j Hj; lia].
    + intros (k & Hk & _ & _ & ->). replace k with O by lia. reflexivity.
    + discriminate.
    + intros (k & Hk & Hended & _). replace k with O in Hended by lia.
      cbn in Hended. congruence.
  - cbn [play_loop]. destruct (getGameEnded game board) eqn:Hend; split.
    + intros [= <-]. exists O. repeat split; [lia|exact Hend|intros j Hj; lia].
    + intros (k & Hk & Hended & Hbefore & ->). destruct k as [|k]; [reflexivity|].
      specialize (Hbefore O ltac:(lia)). cbn in Hbefore. congruence.
    + intros Hloop. apply IH in Hloop as (k & Hk & Hended & Hbefore & ->).
      exists (S k). repeat split; [lia|exact Hended|].
      intros [|j] Hj; [exact Hend|]. apply Hbefore. lia.
    + intros (k & Hk & Hended & Hbefore & ->). destruct k as [|k].
      { cbn in Hended. congruence. }
      apply IH. exists k. repeat split; [lia|exact Hended|].
      intros j Hj. apply (Hbefore (S j)). lia.
Qed.

(** X1: [play_game] returns the result of the first board, in the sequence
    of turns in which the first player moves at the even turns and the
    second player at the odd ones, on which the game has ended, and it
    returns it as soon as the fuel allows that many turns; the value is
    1, -1 or 0. *)
Theorem play_game_turns (fuel : nat) (first_player second_player : Model) (r : Z) :
  play_game game board_translator move_translator net fuel
    first_player second_player = Some r
  <-> exists k, (k <= fuel)%nat
        /\ getGameEnded game (at_turn first_player second_player k) = true
        /\ (forall j, (j < k)%nat ->
              getGameEnded game (at_turn first_player second_player j) = false)
        /\ r = result_of game (at_turn first_player second_player k)
        /\ (r = 1 \/ r = -1 \/ r = 0).
Proof.
  unfold play_game. split.
  - destruct (loop fuel (getInitBoard game) first_player second_player)
      as [final|] eqn:Hloop; [|discriminate].
    intros [= <-]. apply play_loop_from in Hloop as (k & Hk & Hended & Hbefore & ->).
    exists k. rewrite !board_at_from. repeat split; try assumption.
    + intros j Hj. rewrite board_at_from. apply Hbefore, Hj.
    + unfold result_of. repeat case_decide; auto.
  - intros (k & Hk & Hended & Hbefore & -> & _).
    assert (Hloop : loop fuel (getInitBoard game) first_player second_player
                    = Some (at_turn first_player second_player k)).
    { apply play_loop_from. exists k. rewrite <- !board_at_from.
      repeat split; try assumption.
      intros j Hj. rewrite <- board_at_from. apply Hbefore, Hj. }
    rewrite Hloop. reflexivity.
Qed.

(** X2: a turn applies the highest-ranked candidate that passes the legality
    check, whatever the candidates ranked below it. *)
Theorem play_turn_takes_best_legal (board : Board) (current_player : Model)
    (illegal rest : list Z) (index : Z) :
  argsort_descending net
    (forward net current_player (encode board_translator board)).1
  = illegal ++ index :: rest ->
  Forall (fun i => checkIfValid game board (decode move_translator i) = false)
         illegal ->
  checkIfValid game board (decode move_translator index) = true ->
  turn board current_player
  = getNextState game board (Some (decode move_translator index)).
Proof.
  intros Hsorted Hillegal Hlegal.
  rewrite play_turn_applies, Hsorted.
  rewrite (select_action_first_legal game move_translator board illegal rest
             index None Hillegal Hlegal).
  reflexivity.
Qed.

(** Either no candidate is legal or there is a first legal one. *)
Lemma first_legal_split (board : Board) (sorted_indices : list Z) :
  Forall (fun i => checkIfValid game board (decode move_translator i) = false)
         sorted_indices
  \/ exists illegal index rest,
       sorted_indices = illegal ++ index :: rest
       /\ Forall (fun i => checkIfValid game board (decode move_translator i) = false)
                 illegal
       /\ checkIfValid game board (decode move_translator index) = true.
Proof.
  induction sorted_indices as [|i l IH]; [left; constructor|].
  destruct (checkIfValid game board (decode move_translator i)) eqn:Hi.
  - right. exists [], i, l. repeat split; [constructor|exact Hi].
  - destruct IH as [Hall|(illegal & index & rest & -> & Hill & Hlegal)].
    + left. constructor; assumption.
    + right. exists (i :: illegal), index, rest.
      repeat split; [constructor; assumption|exact Hlegal].
Qed.

(** X3: the search loop, started as line 137 starts it, ends with a legal
    action exactly when one of the candidates is legal, and that action
    is then the first legal candidate in the order of the ranking. *)
Theorem select_action_legal_iff (board : Board) (sorted_indices : list Z)
    (action : Action) :
  (select_action game move_translator board sorted_indices None = Some action
   /\ checkIfValid game board action = true)
  <-> exists illegal index rest,
        sorted_indices = illegal ++ index :: rest
        /\ Forall (fun i => checkIfValid game board (decode move_translator i) = false)
                  illegal
        /\ checkIfValid game board (decode move_translator index) = true
        /\ action = decode move_translator index.
Proof.
  split.
  - intros [Hsel Hlegal].
    destruct (first_legal_split board sorted_indices)
      as [Hall|(illegal & index & rest & Hsplit & Hill & Hidx)].
    + exfalso. rewrite select_action_none_legal in Hsel by assumption.
      destruct (last sorted_indices) as [index|] eqn:Hlast; [|discriminate].
      assert (Hin : index ∈ sorted_indices).
      { apply last_Some in Hlast as (front & ->). set_solver. }
      rewrite Forall_forall in Hall. specialize (Hall index Hin).
      injection Hsel as Hsel. rewrite Hsel in Hall. congruence.
    + exists illegal, index, rest. repeat split; try assumption.
      rewrite Hsplit in Hsel.
      rewrite (select_action_first_legal game move_translator board illegal rest
                 index None Hill Hidx) in Hsel.
      congruence.
  - intros (illegal & index & rest & -> & Hill & Hidx & ->).
    split; [|exact Hidx].
    apply select_action_first_legal; assumption.
Qed.

(** X4: without a legal candidate a turn hands [getNextState] the candidate
    ranked last, and [None] when the ranking is empty. *)
Theorem play_turn_without_legal_candidate (board : Board) (current_player : Model) :
  Forall (fun i => checkIfValid game board (decode move_translator i) = false)
         (argsort_descending net
            (forward net current_player (encode board_translator board)).1) ->
  play_turn game board_translator move_translator net board current_player
  = getNextState game board
      (decode move_translator
         <$> last (argsort_descending net
                     (forward net current_player
                        (encode board_translator board)).1)).
Proof.
  intros Hall.
  rewrite play_turn_applies.
  rewrite select_action_none_legal by assumption.
  destruct (last _); reflexivity.
Qed.

End TurnFacts.

(** The heap at one stick: taking two is ranked first and refused, taking
    one is ranked second and applied. *)
Lemma play_turn_takes_best_legal_witness :
  Episode.argsort_descending Examples.fixed_net
    (Episode.forward Examples.fixed_net 0
       (Episode.encode Examples.identity_board 1)).1 = [1] ++ 0 :: [2]
  /\ Forall (fun i => Episode.checkIfValid Examples.sticks 1
                        (Episode.decode Examples.sound_moves i) = false) [1]
  /\ Episode.checkIfValid Examples.sticks 1
       (Episode.decode Examples.sound_moves 0) = true
  /\ Episode.play_turn Examples.sticks Examples.identity_board
       Examples.sound_moves Examples.fixed_net 1 0 = 0.
Proof.
  assert (Hill : Forall (fun i => Episode.checkIfValid Examples.sticks 1
                        (Episode.decode Examples.sound_moves i) = false) [1])
    by (repeat constructor).
  split; [reflexivity|]. split; [exact Hill|]. split; [reflexivity|].
  rewrite (play_turn_takes_best_legal Examples.sticks Examples.identity_board
             Examples.sound_moves Examples.fixed_net 1 0 [1] [2] 0
             eq_refl Hill eq_refl).
  reflexivity.
Defined.

(** The heap at five sticks with the encoding that knows no legal move. *)
Lemma play_turn_without_legal_candidate_witness :
  Forall (fun i => Episode.checkIfValid Examples.sticks 5
                     (Episode.decode Examples.broken_moves i) = false) [1; 0; 2]
  /\ Episode.play_turn Examples.sticks Examples.identity_board
       Examples.broken_moves Examples.fixed_net 5 0
     = Episode.getNextState Examples.sticks 5 (Some 9).
Proof.
  assert (Hill : Forall (fun i => Episode.checkIfValid Examples.sticks 5
                     (Episode.decode Examples.broken_moves i) = false) [1; 0; 2])
    by (repeat constructor).
  split; [exact Hill|].
  exact (play_turn_without_legal_candidate Examples.sticks Examples.identity_board
           Examples.broken_moves Examples.fixed_net 5 0 Hill).
Defined.

(** ** The tournament at its edges *)

Section TournamentEdges.
Import Tournament.
Context {Model : Type}.
Variable play_game : Z -> Model -> Model -> Z.

(** X5: the win counter never leaves the interval from 0 to the number of
    games, whatever the episodes return and whatever the number of games
    (a negative number plays none). *)
Theorem evaluate_win_count_bounds (a : args) (current_model new_model : Model) :
  0 <= num_wins (evaluate_loop play_game a current_model new_model)
    <= Z.max 0 (num_evaluate_games a)
  /\ length (played (evaluate_loop play_game a current_model new_model))
     = Z.to_nat (num_evaluate_games a).
Proof.
  destruct (Z.le_gt_cases 0 (num_evaluate_games a)) as [Hn|Hn].
  - rewrite evaluate_loop_wins by assumption.
    rewrite evaluate_loop_spec by assumption. unfold after_games. cbn [played].
    pose proof (count_wins_bounds
                  (expected_episode play_game (num_evaluate_games a)
                     current_model new_model <$> range (num_evaluate_games a))) as Hc.
    rewrite length_fmap, range_length in Hc by assumption.
    split; [lia|].
    rewrite length_fmap. unfold range. rewrite length_fmap, length_seq.
    rewrite Nat2Z.id. reflexivity.
  - rewrite evaluate_loop_no_games by lia. cbn. lia.
Qed.

Lemma count_wins_none (log : list (episode Model)) :
  Forall (fun e => counted_win e = false) log -> count_wins log = 0.
Proof.
  intros Hall. unfold count_wins.
  induction Hall as [|e log He _ IH]; [reflexivity|].
  rewrite filter_cons_False by (simpl; congruence). exact IH.
Qed.

Lemma count_wins_all (log : list (episode Model)) :
  Forall (fun e => counted_win e = true) log ->
  count_wins log = Z.of_nat (length log).
Proof.
  intros Hall. unfold count_wins.
  induction Hall as [|e log He _ IH]; [reflexivity|].
  rewrite filter_cons_True by (simpl; congruence). cbn [length]. lia.
Qed.

Lemma Forall_expected (P : episode Model -> Prop) (n : Z)
    (current_model new_model : Model) :
  (forall i, 0 <= i < n ->
     P (expected_episode play_game n current_model new_model i)) ->
  Forall P (expected_episode play_game n current_model new_model <$> range n).
Proof.
  intros HP. apply Forall_fmap, Forall_forall. intros i Hi.
  apply elem_of_range in Hi. apply HP, Hi.
Qed.

(** The quotient of a float by itself is 1.0. *)
Lemma SFdiv_self (s : bool) (m : positive) (e : Z) :
  SFdiv prec emax (S754_finite s m e) (S754_finite s m e)
  = S754_finite false 4503599627370496 (-52).
Proof.
  unfold SFdiv, SFdiv_core_binary.
  replace (Zdigits2 (Z.pos m) + e - (Zdigits2 (Z.pos m) + e)) with 0 by lia.
  replace (e - e) with 0 by lia.
  change (Z.min (fexp prec emax 0) 0) with (-53).
  change (0 - -53) with 53.
  rewrite Z.shiftl_mul_pow2 by lia.
  pose proof (Z_div_mod (Z.pos m * 2 ^ 53) (Z.pos m) ltac:(lia)) as Hdiv.
  destruct (Z.div_eucl (Z.pos m * 2 ^ 53) (Z.pos m)) as [q r].
  destruct Hdiv as [Heq Hr].
  assert (Hq : q = 2 ^ 53) by nia.
  assert (Hr0 : r = 0) by nia.
  subst q r.
  assert (Hloc : new_location (Z.pos m) 0 = loc_Exact).
  { unfold new_location, new_location_even, new_location_odd.
    destruct (Z.even (Z.pos m)); reflexivity. }
  rewrite Hloc. destruct s; vm_compute; reflexivity.
Qed.

(** X6: a tournament in which the candidate wins no game (draws and wins of
    the incumbent alike) has the quotient +0.0: the candidate is accepted
    only by a threshold that is not above zero, and rejected by every
    positive threshold. *)
Theorem evaluate_without_a_win (a : args) (current_model new_model : Model) :
  1 <= num_evaluate_games a < 2 ^ 53 ->
  (forall i, 0 <= i < num_evaluate_games a ->
     counted_win (expected_episode play_game (num_evaluate_games a)
                    current_model new_model i) = false) ->
  num_wins (evaluate_loop play_game a current_model new_model) = 0
  /\ evaluate play_game a current_model new_model
     = Ret (float_ge (S754_zero false) (evaluation_threshold a))
  /\ (forall m e, evaluation_threshold a = S754_finite false m e ->
        evaluate play_game a current_model new_model = Ret false).
Proof.
  intros Hn Hnone.
  assert (Hwins : num_wins (evaluate_loop play_game a current_model new_model) = 0).
  { rewrite evaluate_loop_wins by lia. apply count_wins_none.
    apply Forall_expected. exact Hnone. }
  assert (Hev : evaluate play_game a current_model new_model
                = Ret (float_ge (S754_zero false) (evaluation_threshold a))).
  { rewrite evaluate_returns by lia. rewrite Hwins.
    destruct (num_evaluate_games a) as [|p|p]; try lia. reflexivity. }
  split; [exact Hwins|]. split; [exact Hev|].
  intros m e Hthr. rewrite Hev, Hthr. reflexivity.
Qed.

(** X7: a tournament in which the candidate wins every game has the quotient
    1.0 exactly, whatever the number of games: the candidate is accepted
    by the threshold 1.0 and by every threshold that is [<=] 1.0. *)
Theorem evaluate_with_every_win (a : args) (current_model new_model : Model) :
  1 <= num_evaluate_games a < 2 ^ 53 ->
  (forall i, 0 <= i < num_evaluate_games a ->
     counted_win (expected_episode play_game (num_evaluate_games a)
                    current_model new_model i) = true) ->
  num_wins (evaluate_loop play_game a current_model new_model)
  = num_evaluate_games a
  /\ evaluate play_game a current_model new_model
     = Ret (float_ge (float_of_int 1) (evaluation_threshold a))
  /\ (evaluation_threshold a = float_of_int 1 ->
      evaluate play_game a current_model new_model = Ret true).
Proof.
  intros Hn Hall.
  assert (Hwins : num_wins (evaluate_loop play_game a current_model new_model)
                  = num_evaluate_games a).
  { rewrite evaluate_loop_wins by lia. rewrite count_wins_all.
    - rewrite length_fmap. apply range_length. lia.
    - apply Forall_expected. exact Hall. }
  assert (Hev : evaluate play_game a current_model new_model
                = Ret (float_ge (float_of_int 1) (evaluation_threshold a))).
  { rewrite evaluate_returns by lia. rewrite Hwins.
    destruct (num_evaluate_games a) as [|p|p]; try lia.
    unfold rounded_quotient. cbn [exact_of_int].
    rewrite SFdiv_self. reflexivity. }
  split; [exact Hwins|]. split; [exact Hev|].
  intros Hthr. rewrite Hev, Hthr. reflexivity.
Qed.

(** X8: a negative number of games plays no episode and does not raise: the
    quotient is 0 / n = -0.0, so the candidate is accepted, unplayed, by
    any threshold that is not above zero. *)
Theorem evaluate_negative_games (a : args) (current_model new_model : Model) :
  - 2 ^ 53 < num_evaluate_games a < 0 ->
  played (evaluate_loop play_game a current_model new_model) = []
  /\ evaluate play_game a current_model new_model
     = Ret (float_ge (S754_zero true) (evaluation_threshold a))
  /\ (evaluation_threshold a = S754_zero false ->
      evaluate play_game a current_model new_model = Ret true).
Proof.
  intros Hn.
  assert (Hev : evaluate play_game a current_model new_model
                = Ret (float_ge (S754_zero true) (evaluation_threshold a))).
  { apply evaluate_returns_negative. lia. }
  split; [rewrite evaluate_loop_no_games by lia; reflexivity|].
  split; [exact Hev|].
  intros Hthr. rewrite Hev, Hthr. reflexivity.
Qed.

End TournamentEdges.

(** The candidate that only draws. *)
Lemma evaluate_without_a_win_witness :
  1 <= 20 < 2 ^ 53
  /\ (forall i, 0 <= i < 20 ->
        Tournament.counted_win
          (Tournament.expected_episode Examples.all_draws 20 0 1 i) = false)
  /\ Tournament.evaluate Examples.all_draws Examples.args20 0 1 = Ret false.
Proof.
  assert (Hnone : forall i, 0 <= i < 20 ->
            Tournament.counted_win
              (Tournament.expected_episode Examples.all_draws 20 0 1 i) = false).
  { intros i Hi. cbn. apply bool_decide_eq_false. unfold Examples.all_draws. lia. }
  split; [lia|]. split; [exact Hnone|].
  apply (proj2 (proj2 (evaluate_without_a_win Examples.all_draws Examples.args20 0 1
                         ltac:(cbn; lia) Hnone)) 4953959590107546%positive (-53)).
  vm_compute. reflexivity.
Defined.

(** The candidate that wins every game, at the threshold 1.0. *)
Lemma evaluate_with_every_win_witness :
  1 <= 20 < 2 ^ 53
  /\ (forall i, 0 <= i < 20 ->
        Tournament.counted_win
          (Tournament.expected_episode Examples.stronger_wins 20 0 1 i) = true)
  /\ Tournament.evaluate Examples.stronger_wins
       (Args 20 (float_of_int 1) 5 "models") 0 1 = Ret true.
Proof.
  assert (Hall : forall i, 0 <= i < 20 ->
            Tournament.counted_win
              (Tournament.expected_episode Examples.stronger_wins 20 0 1 i) = true).
  { intros i Hi. cbn. apply bool_decide_eq_true. unfold Examples.stronger_wins.
    change (20 `div` 2) with 10.
    destruct (decide (i < 10)) as [Hlt|Hge].
    - left. split; [exact Hlt|].
      rewrite (bool_decide_eq_true_2 _ Hlt). reflexivity.
    - right. split; [lia|].
      rewrite (bool_decide_eq_false_2 _ Hge). reflexivity. }
  split; [lia|]. split; [exact Hall|].
  apply (proj2 (proj2 (evaluate_with_every_win Examples.stronger_wins
                         (Args 20 (float_of_int 1) 5 "models") 0 1
                         ltac:(cbn; lia) Hall))).
  reflexivity.
Defined.

(** Minus three games at the threshold 0.0. *)
Lemma evaluate_negative_games_witness :
  - 2 ^ 53 < -3 < 0
  /\ Tournament.evaluate Examples.stronger_wins
       (Args (-3) (S754_zero false) 5 "models") 0 1 = Ret true.
Proof.
  split; [lia|].
  apply (proj2 (proj2 (evaluate_negative_games Examples.stronger_wins
                         (Args (-3) (S754_zero false) 5 "models") 0 1
                         ltac:(cbn; lia)))).
  reflexivity.
Defined.

(** ** The coordinator loop: crashes, the wait without acknowledgements,
    and what gets published and archived *)

Section CoordinatorEdges.
Import Coordinator History.
Context {Model StateDict K : Type} `{Countable K}.
Variable ops : ModelOps Model StateDict.
Variable c : common K.
Variable play_game : Z -> Model -> Model -> Z.
Variable a : args.

Local Abbreviation state := (state Model StateDict K).
Local Abbreviation step := (coordinator_step ops c play_game a).
Local Abbreviation run_from := (run ops c play_game a).

(** Once [start] has died of an exception nothing brings it back: the
    coordinator's model, the disk and every shared variable but the two
    counters stay as they are. *)
Lemma crashed_run (e : exn) (evs : list (event Model)) (st : state) :
  pc st = Crashed e ->
  pc (run_from st evs) = Crashed e
  /\ current_model (run_from st evs) = current_model st
  /\ disk (run_from st evs) = disk st
  /\ (forall key, key <> NUM_SELF_PLAY_WORKERS c -> key <> NUM_TRAINING_WORKERS c ->
        shared_variables (run_from st evs) !! key = shared_variables st !! key).
Proof.
  revert st. induction evs as [|ev evs IH]; intros st Hpc.
  - repeat split; try exact Hpc; reflexivity.
  - cbn [run foldl]. fold (run_from (system_step ops c play_game a st ev) evs).
    assert (Hstep : pc (system_step ops c play_game a st ev) = Crashed e
              /\ current_model (system_step ops c play_game a st ev) = current_model st
              /\ disk (system_step ops c play_game a st ev) = disk st
              /\ (forall key, key <> NUM_SELF_PLAY_WORKERS c ->
                    key <> NUM_TRAINING_WORKERS c ->
                    shared_variables (system_step ops c play_game a st ev) !! key
                    = shared_variables st !! key)).
    { destruct ev as [now| | |m| | | |];
        [cbn [system_step]; unfold coordinator_step; rewrite Hpc;
         repeat split; try exact Hpc; reflexivity|..];
        match goal with
        | |- context [system_step _ _ _ _ st ?ev] =>
            destruct (worker_step_frame ops c play_game a st ev
                        ltac:(intros; discriminate))
              as (-> & -> & _ & _ & _ & -> & Hsv)
        end;
        repeat split; try exact Hpc; try exact Hsv. }
    destruct Hstep as (Hpc' & Hcur & Hdisk & Hsv).
    destruct (IH _ Hpc') as (Hpc'' & Hcur' & Hdisk' & Hsv').
    split; [exact Hpc''|]. split; [congruence|]. split; [congruence|].
    intros key Hk1 Hk2. rewrite Hsv' by assumption. apply Hsv; assumption.
Qed.

(** X9: a counter missing from [shared_variables] when the coordinator takes
    its snapshot (lines 67-68) ends [start] with a [KeyError] after both
    signals have been set, and the signals stay set whatever happens
    afterwards. *)
Theorem missing_counter_leaves_signals_set (st : state)
    (now : Archive.struct_time) (evs : list (event Model)) :
  distinct_keys c ->
  reachable ops c play_game a st ->
  (pc st = L67_snapshot_self_play
   /\ shared_variables st !! NUM_SELF_PLAY_WORKERS c = None)
  \/ (pc st = L68_snapshot_training
      /\ shared_variables st !! NUM_TRAINING_WORKERS c = None) ->
  let st' := run_from (step now st) evs in
  pc st' = Crashed KeyError
  /\ signal_set (SELF_PLAY_SIGNAL c) st'
  /\ signal_set (TRAINING_SIGNAL c) st'.
Proof.
  intros Hd Hreach Hmissing st'.
  destruct (distinct_keys_ne c Hd)
    as (Hms & Hmt & Hmn & Hmm & Hst & Hsn & Hsm & Htn & Htm & Hnm).
  destruct (reachable_invariant ops c play_game a st Hd Hreach) as [_ Hpc].
  assert (Hcrash : step now st = crash KeyError st
                   /\ signal_set (SELF_PLAY_SIGNAL c) st
                   /\ signal_set (TRAINING_SIGNAL c) st).
  { destruct Hmissing as [[Hl Hnone]|[Hl Hnone]]; rewrite Hl in Hpc;
      (split; [|tauto]); unfold coordinator_step, read; rewrite Hl, Hnone;
      reflexivity. }
  destruct Hcrash as (Hstep & Hs & Ht).
  destruct (crashed_run KeyError evs (step now st)) as (Hpc' & _ & _ & Hsv).
  { rewrite Hstep. reflexivity. }
  subst st'. split; [exact Hpc'|].
  unfold signal_set in *. rewrite !Hsv by congruence.
  rewrite Hstep. split; assumption.
Qed.

(** X10: with [num_evaluate_games] at 0 the first candidate ends [start]: the
    [ZeroDivisionError] of [evaluate] is not caught, nothing is published
    or archived, and no later candidate is looked at. *)
Theorem zero_games_end_the_loop (st : state) (candidate : Model)
    (now : Archive.struct_time) (evs : list (event Model)) :
  num_evaluate_games a = 0 ->
  pc st = L55_evaluate ->
  new_model_candidate st = Some candidate ->
  let st' := run_from (step now st) evs in
  pc st' = Crashed ZeroDivisionError
  /\ current_model st' = current_model st
  /\ disk st' = disk st
  /\ (forall key, key <> NUM_SELF_PLAY_WORKERS c -> key <> NUM_TRAINING_WORKERS c ->
        shared_variables st' !! key = shared_variables st !! key).
Proof.
  intros Hn Hpc Hcand st'.
  assert (Hstep : step now st = crash ZeroDivisionError st).
  { unfold coordinator_step. rewrite Hpc, Hcand. cbn [local].
    rewrite (evaluate_raises play_game a (current_model st) candidate Hn).
    reflexivity. }
  destruct (crashed_run ZeroDivisionError evs (step now st))
    as (Hpc' & Hcur & Hdisk & Hsv).
  { rewrite Hstep. reflexivity. }
  subst st'. split; [exact Hpc'|].
  split; [rewrite Hcur, Hstep; reflexivity|].
  split; [rewrite Hdisk, Hstep; reflexivity|].
  intros key Hk1 Hk2. rewrite Hsv by assumption. rewrite Hstep. reflexivity.
Qed.

(** X11: when the name of the archive directory is taken by a regular
    file, the [FileExistsError] of [os.makedirs] ends [start] at line 83:
    the disk is left as it was, while the shared variables keep what the
    promotion wrote into them. *)
Theorem failed_archive_ends_the_loop (st : state) (candidate : Model)
    (now : Archive.struct_time) (evs : list (event Model)) (content : StateDict) :
  pc st = L83_save ->
  new_model_candidate st = Some candidate ->
  Archive.lookup_path (disk st) (Archive.relative_dir (accepted_model_path a))
  = Some (Archive.File content) ->
  let st' := run_from (step now st) evs in
  pc st' = Crashed (FileExistsError (Archive.relative_dir (accepted_model_path a)))
  /\ disk st' = disk st
  /\ current_model st' = current_model st
  /\ (forall key, key <> NUM_SELF_PLAY_WORKERS c -> key <> NUM_TRAINING_WORKERS c ->
        shared_variables st' !! key = shared_variables st !! key).
Proof.
  intros Hpc Hcand Hfile st'.
  assert (Hstep : step now st
                  = crash (FileExistsError
                             (Archive.relative_dir (accepted_model_path a))) st).
  { unfold coordinator_step. rewrite Hpc, Hcand. cbn [local].
    unfold Archive.save_accepted_model.
    rewrite (makedirs_file (Archive.relative_dir (accepted_model_path a))
               (disk st) content Hfile).
    destruct st. cbn in Hcand. subst. reflexivity. }
  destruct (crashed_run _ evs (step now st) ltac:(rewrite Hstep; reflexivity))
    as (Hpc' & Hcur & Hdisk & Hsv).
  subst st'. split; [exact Hpc'|].
  split; [rewrite Hdisk, Hstep; reflexivity|].
  split; [rewrite Hcur, Hstep; reflexivity|].
  intros key Hk1 Hk2. rewrite Hsv by assumption. rewrite Hstep. reflexivity.
Qed.

(** X12: while no worker acknowledges, the coordinator stays in the wait loop
    of lines 71-72, however long it runs and whatever is proposed
    meanwhile: the loop has no timeout. *)
Theorem no_ack_no_exit (st : state) (evs : list (event Model)) :
  waiting (pc st) = true ->
  pending (NUM_SELF_PLAY_WORKERS c) st ->
  pending (NUM_TRAINING_WORKERS c) st ->
  Forall (fun ev => no_ack ev = true) evs ->
  waiting (pc (run_from st evs)) = true
  /\ shared_variables (run_from st evs) = shared_variables st.
Proof.
  intros Hw (ns & Hns & Hpos_s) (nt & Hnt & Hpos_t) Hevs. revert st Hw Hns Hnt.
  induction Hevs as [|ev evs Hev _ IH]; intros st Hw Hns Hnt.
  - split; [exact Hw|reflexivity].
  - cbn [run foldl]. fold (run_from (system_step ops c play_game a st ev) evs).
    assert (Hstep : waiting (pc (system_step ops c play_game a st ev)) = true
              /\ shared_variables (system_step ops c play_game a st ev)
                 = shared_variables st).
    { destruct ev as [now| | |m| | | |]; cbn [system_step]; try discriminate.
      - unfold coordinator_step, read.
        destruct (pc st); try discriminate; cbn.
        + rewrite Hns. cbn. rewrite bool_decide_eq_true_2 by lia.
          split; reflexivity.
        + rewrite Hnt. cbn. rewrite bool_decide_eq_true_2 by lia.
          split; reflexivity.
        + split; reflexivity.
      - split; [exact Hw|reflexivity].
      - unfold worker_observes, set_reloading. case_match; cbn; auto.
        repeat case_match; cbn; auto.
      - unfold worker_observes, set_reloading. case_match; cbn; auto.
        repeat case_match; cbn; auto. }
    destruct Hstep as [Hw' Hsv'].
    destruct (IH _ Hw') as [Hw'' Hsv'']; try (rewrite Hsv'; assumption).
    split; [exact Hw''|congruence].
Qed.

End CoordinatorEdges.
Section HistoryFacts.
Import Coordinator History.
Context {Model StateDict K : Type} `{Countable K}.
Variable ops : ModelOps Model StateDict.
Variable c : common K.
Variable play_game : Z -> Model -> Model -> Z.
Variable a : args.

Local Abbreviation state := (state Model StateDict K).
Local Abbreviation step := (coordinator_step ops c play_game a).
Local Abbreviation sys := (system_step ops c play_game a).
Local Abbreviation run_from := (run ops c play_game a).
Local Abbreviation hist := (history_invariant ops c).

(** The more candidates count as accepted, the weaker the invariant. *)
Lemma history_invariant_mono (A A' : Model -> Prop) (st0 st : state) :
  (forall m, A m -> A' m) -> hist A st0 st -> hist A' st0 st.
Proof.
  intros Hmono (Hcand & Hslot & Hfiles). split; [|split].
  - intros Hl. destruct (Hcand Hl) as (m & Hm & HA). eauto.
  - destruct Hslot as [Hslot|(m & HA & Hm)]; [left; exact Hslot|right; eauto].
  - intros place sd Hp.
    destruct (Hfiles place sd Hp) as [Hold|(m & HA & Hm)]; [left; exact Hold|].
    right. eauto.
Qed.

Section Step.

(** The candidates that count as accepted. *)
Variable was_accepted : Model -> Prop.

(** The candidate in hand in the accept branch is an accepted one, and
    the files stem from accepted candidates: kept by every statement of
    [start], provided a candidate for which line 55 finds [evaluate]
    true counts as accepted. *)
Lemma coordinator_step_files (now : Archive.struct_time) (st0 st : state) :
  (forall candidate,
     pc st = L55_evaluate -> new_model_candidate st = Some candidate ->
     Tournament.evaluate play_game a (current_model st) candidate = Ret true ->
     was_accepted candidate) ->
  hist was_accepted st0 st ->
  (in_accept_branch (pc (step now st)) = true ->
   exists candidate, new_model_candidate (step now st) = Some candidate
                     /\ was_accepted candidate)
  /\ (forall place sd,
        Archive.nodes (disk (step now st)) !! place = Some (Archive.File sd) ->
        Archive.nodes (disk st0) !! place = Some (Archive.File sd)
        \/ exists candidate,
             was_accepted candidate /\ sd = state_dict ops candidate).
Proof.
  intros Hnew (Hcand & _ & Hfiles).
  destruct st as [l cur cand nsp ntr sv q d rs rt].
  unfold coordinator_step.
  cbn [pc current_model new_model_candidate num_self_play_workers
       num_training_workers shared_variables new_model_queue disk
       self_play_reloading training_reloading] in *.
  destruct l; cbn [in_accept_branch] in Hcand.
  16: { (* line 83 *)
    destruct (Hcand eq_refl) as (candidate & -> & Hacc). cbn [local].
    destruct (Archive.save_accepted_model (state_dict ops) now
                (accepted_model_path a) candidate d) as [d' r] eqn:Hsave.
    cbn [pc disk new_model_candidate].
    split.
    - destruct r; cbn; discriminate.
    - intros p sd Hp.
      assert (Hd' : d' = (Archive.save_accepted_model (state_dict ops) now
                            (accepted_model_path a) candidate d).1)
        by (rewrite Hsave; reflexivity).
      rewrite Hd' in Hp. apply save_accepted_model_files in Hp as [Hp|Hp].
      + apply Hfiles, Hp.
      + right. exists candidate. split; assumption. }
  2: { (* line 55 *)
    destruct cand as [candidate|]; cbn [local];
      [|split; [discriminate|exact Hfiles]].
    destruct (Tournament.evaluate play_game a cur candidate) as [[|]|e] eqn:Hev;
      cbn; (split; [|exact Hfiles]); try discriminate.
    intros _. exists candidate. split; [reflexivity|].
    apply Hnew; reflexivity || exact Hev. }
  all: unfold local, read, crash, goto, assign, set_shared;
    cbn [pc current_model new_model_candidate num_self_play_workers
         num_training_workers shared_variables new_model_queue disk];
    repeat case_match;
    cbn [pc current_model new_model_candidate num_self_play_workers
         num_training_workers shared_variables new_model_queue disk in_accept_branch];
    (split; [|exact Hfiles]);
    try discriminate; try (intros _; apply Hcand; reflexivity).
Qed.

(** With five different keys the statements of [start] write nothing
    into the shared slot but the state dict of the accepted candidate. *)
Lemma coordinator_step_slot (now : Archive.struct_time) (st0 st : state) :
  distinct_keys c ->
  hist was_accepted st0 st ->
  shared_variables (step now st) !! MODEL_STATE_DICT c
  = shared_variables st0 !! MODEL_STATE_DICT c
  \/ exists candidate,
       was_accepted candidate
       /\ shared_variables (step now st) !! MODEL_STATE_DICT c
          = Some (VStateDict (state_dict ops candidate)).
Proof.
  intros Hd (Hcand & Hslot & _).
  destruct (distinct_keys_ne c Hd)
    as (Hms & Hmt & Hmn & Hmm & Hst & Hsn & Hsm & Htn & Htm & Hnm).
  destruct st as [l cur cand nsp ntr sv q d rs rt].
  unfold coordinator_step.
  cbn [pc current_model new_model_candidate num_self_play_workers
       num_training_workers shared_variables new_model_queue disk
       self_play_reloading training_reloading] in *.
  destruct l; cbn [in_accept_branch] in Hcand.
  4: { (* line 60 *)
    destruct (Hcand eq_refl) as (candidate & -> & Hacc). cbn.
    right. exists candidate. split; [exact Hacc|]. apply lookup_insert_eq. }
  all: unfold local, read, crash, goto, assign, set_shared;
    cbn [pc current_model new_model_candidate num_self_play_workers
         num_training_workers shared_variables new_model_queue disk];
    repeat case_match;
    cbn [pc current_model new_model_candidate num_self_play_workers
         num_training_workers shared_variables new_model_queue disk];
    rewrite ?lookup_insert_ne by (assumption || (apply not_eq_sym; assumption));
    exact Hslot.
Qed.

(** The three parts of the invariant together, for every step of the
    program. *)
Lemma system_step_history (st0 st : state) (ev : event Model) :
  distinct_keys c ->
  (forall now candidate,
     ev = CoordinatorStep now ->
     pc st = L55_evaluate -> new_model_candidate st = Some candidate ->
     Tournament.evaluate play_game a (current_model st) candidate = Ret true ->
     was_accepted candidate) ->
  hist was_accepted st0 st ->
  hist was_accepted st0 (sys st ev).
Proof.
  intros Hd Hnew Hinv.
  destruct (distinct_keys_ne c Hd)
    as (Hms & Hmt & Hmn & Hmm & Hst & Hsn & Hsm & Htn & Htm & Hnm).
  destruct ev as [now| | |m| | | |].
  { cbn [system_step].
    destruct (coordinator_step_files now st0 st) as [Hcand' Hfiles'];
      [intros candidate; apply (Hnew now candidate eq_refl)|exact Hinv|].
    split; [exact Hcand'|]. split; [|exact Hfiles'].
    apply coordinator_step_slot; assumption. }
  all: match goal with
       | |- context [system_step _ _ _ _ ?s ?ev] =>
           destruct (worker_step_frame ops c play_game a s ev
                       ltac:(intros; discriminate))
             as (Hpc & _ & Hc & _ & _ & Hdisk & Hsv)
       end;
    unfold history_invariant;
    rewrite Hpc, Hc, Hdisk, Hsv by assumption; exact Hinv.
Qed.

End Step.

(** A candidate accepted in the course of a run is accepted in the
    course of every longer one. *)
Lemma accepted_further (st0 : state) (evs more : list (event Model))
    (candidate : Model) :
  accepted ops c play_game a st0 evs candidate ->
  accepted ops c play_game a st0 (evs ++ more) candidate.
Proof.
  intros (before & now & after & -> & Hpc & Hcand & Hev).
  exists before, now, (after ++ more). rewrite <- app_assoc. auto.
Qed.

(** The invariant holds all along a run, of the candidates the
    coordinator has accepted so far. *)
Lemma run_history (st0 : state) (evs : list (event Model)) :
  distinct_keys c -> initial c st0 ->
  hist (accepted ops c play_game a st0 evs) st0 (run_from st0 evs).
Proof.
  intros Hd Hinit. induction evs as [|ev evs IH] using rev_ind.
  - destruct Hinit as (Hpc & _). split; [|split].
    + cbn. rewrite Hpc. discriminate.
    + left. reflexivity.
    + intros place sd Hp. left. exact Hp.
  - unfold run. rewrite foldl_app. cbn [foldl]. fold (run_from st0 evs).
    apply system_step_history; [exact Hd| |].
    + intros now candidate -> Hpc Hcand Hev.
      exists evs, now, []. auto.
    + apply (history_invariant_mono (accepted ops c play_game a st0 evs));
        [|exact IH].
      intros m. apply accepted_further.
Qed.

(** X13: whatever the workers do and however many candidates are proposed,
    the shared slot [MODEL_STATE_DICT] only ever holds what it held at the
    start or the state dict of a candidate that the coordinator has
    evaluated at line 55 against the model it held at that moment, with
    [evaluate] returning true: a candidate that is not accepted is never
    published. *)
Theorem only_accepted_models_published (st0 : state) (evs : list (event Model)) :
  distinct_keys c ->
  initial c st0 ->
  slot_from_accepted ops c play_game a st0 evs.
Proof.
  intros Hd Hinit. exact (proj1 (proj2 (run_history st0 evs Hd Hinit))).
Qed.

(** X14: every regular file on the disk was there at the start, unchanged,
    or holds the state dict of a candidate that the coordinator has
    evaluated at line 55 against the model it held at that moment, with
    [evaluate] returning true: a candidate that is not accepted is never
    archived. *)
Theorem only_accepted_models_archived (st0 : state) (evs : list (event Model)) :
  distinct_keys c ->
  initial c st0 ->
  files_from_accepted ops c play_game a st0 evs.
Proof.
  intros Hd Hinit. exact (proj2 (proj2 (run_history st0 evs Hd Hinit))).
Qed.

End HistoryFacts.

Section AgreementFacts.
Import Coordinator History.
Context {Model StateDict K : Type} `{Countable K}.
Variable ops : ModelOps Model StateDict.
Variable c : common K.
Variable play_game : Z -> Model -> Model -> Z.
Variable a : args.

(** What is loaded into a model is what its state dict then is. *)
Hypothesis load_then_state_dict :
  forall (m : Model) (sd : StateDict),
    state_dict ops (load_state_dict ops m sd) = sd.

Local Abbreviation state := (state Model StateDict K).
Local Abbreviation step := (coordinator_step ops c play_game a).
Local Abbreviation sys := (system_step ops c play_game a).
Local Abbreviation run_from := (run ops c play_game a).
Local Abbreviation agree := (agreement_invariant ops c).

Lemma coordinator_step_agreement (now : Archive.struct_time) (st0 st : state) :
  distinct_keys c -> agree st0 st -> agree st0 (step now st).
Proof.
  intros Hd Hinv.
  destruct (distinct_keys_ne c Hd)
    as (Hms & Hmt & Hmn & Hmm & Hst & Hsn & Hsm & Htn & Htm & Hnm).
  destruct st as [l cur cand nsp ntr sv q d rs rt].
  unfold agreement_invariant, coordinator_step, slot_is_current in *.
  cbn [pc current_model new_model_candidate num_self_play_workers
       num_training_workers shared_variables new_model_queue disk
       self_play_reloading training_reloading] in *.
  destruct l.
  3: { (* line 57 *)
    destruct cand as [candidate|]; cbn; [|exact I].
    exists candidate. split; [reflexivity|]. apply load_then_state_dict. }
  3: { (* line 60 *)
    destruct Hinv as (candidate & -> & Hsd). cbn.
    rewrite lookup_insert_eq, Hsd. reflexivity. }
  all: unfold local, read, crash, goto, assign, set_shared;
    cbn [pc current_model new_model_candidate num_self_play_workers
         num_training_workers shared_variables new_model_queue disk];
    repeat first
      [ progress cbn [pc current_model new_model_candidate num_self_play_workers
                      num_training_workers shared_variables new_model_queue disk]
      | case_match ];
    cbn [pc] in *; try discriminate;
    rewrite ?lookup_insert_ne by (assumption || (apply not_eq_sym; assumption));
    solve [exact I | exact Hinv | intros _; exact Hinv | auto].
Qed.

Lemma system_step_agreement (st0 st : state) (ev : event Model) :
  distinct_keys c -> agree st0 st -> agree st0 (sys st ev).
Proof.
  intros Hd Hinv.
  destruct (distinct_keys_ne c Hd)
    as (Hms & Hmt & Hmn & Hmm & Hst & Hsn & Hsm & Htn & Htm & Hnm).
  destruct ev as [now| | |m| | | |];
    [cbn [system_step]; apply coordinator_step_agreement; assumption|..].
  all: match goal with
       | |- context [system_step _ _ _ _ ?s ?ev] =>
           destruct (worker_step_frame ops c play_game a s ev
                       ltac:(intros; discriminate))
             as (Hpc & Hcur & Hc & Hn & _ & _ & Hsv)
       end;
    unfold agreement_invariant, slot_is_current in *;
    rewrite Hpc, Hcur, Hc, Hn, Hsv by assumption; exact Hinv.
Qed.

Lemma run_agreement (st0 st : state) (evs : list (event Model)) :
  distinct_keys c -> agree st0 st -> agree st0 (run_from st evs).
Proof.
  intros Hd. revert st.
  induction evs as [|ev evs IH]; intros st Hinv; [exact Hinv|].
  apply IH, system_step_agreement; assumption.
Qed.

(** X15: between promotions the shared slot holds the state dict of the
    coordinator's own model, provided it did at the start or a promotion
    has taken place since: the incumbent a candidate is evaluated against
    is the model the workers were told to use. *)
Theorem incumbent_is_the_published_model (st0 : state) (evs : list (event Model)) :
  distinct_keys c ->
  initial c st0 ->
  let st := run_from st0 evs in
  pc st = L44_get \/ pc st = L55_evaluate \/ pc st = L57_load ->
  slot_is_current ops c st0 \/ is_Some (num_self_play_workers st) ->
  slot_is_current ops c st.
Proof.
  intros Hd Hinit st Hpc Hstart.
  assert (Hinv0 : agree st0 st0).
  { destruct Hinit as (Hpc0 & _ & Hn & _). unfold agreement_invariant.
    rewrite Hpc0. intros [Hs|Hs]; [exact Hs|].
    rewrite Hn in Hs. destruct Hs as [? ?]. discriminate. }
  pose proof (run_agreement st0 st0 evs Hd Hinv0) as Hinv.
  fold st in Hinv. unfold agreement_invariant in Hinv.
  destruct Hpc as [Hl|[Hl|Hl]]; rewrite Hl in Hinv; apply Hinv, Hstart.
Qed.

End AgreementFacts.
(** ** The archive over several calls *)

Section SaveMore.
Import Archive.
Context {Model StateDict : Type}.
Variable state_dict : Model -> StateDict.

Local Abbreviation fs := (fs StateDict).
Local Abbreviation save := (save_accepted_model state_dict).

Lemma valid_time_in_range (t : struct_time) : valid_time t -> gmtime_range t.
Proof. intros (_ & Hrest). exact Hrest. Qed.

Lemma string_compare_refl (s : string) : String.compare s s = Eq.
Proof.
  induction s as [|ch s IH]; [reflexivity|].
  rewrite compare_cons_same. exact IH.
Qed.

(** Two different seconds give two different file names. *)
Lemma file_name_differs (t1 t2 : struct_time) :
  valid_time t1 -> valid_time t2 -> time_lt t1 t2 \/ time_lt t2 t1 ->
  file_name t1 <> file_name t2.
Proof.
  intros Hv1 Hv2 Hlt Heq. unfold file_name in Heq.
  destruct Hlt as [Hlt|Hlt].
  - pose proof (strftime_order t1 t2 ".pt" ".pt" Hv1 Hv2 Hlt) as Hcmp.
    rewrite Heq, string_compare_refl in Hcmp. discriminate.
  - pose proof (strftime_order t2 t1 ".pt" ".pt" Hv2 Hv1 Hlt) as Hcmp.
    rewrite Heq, string_compare_refl in Hcmp. discriminate.
Qed.

(** A second call after one that has completed: the directories are
    there, and the second file is written next to the first, or over
    it. *)
Lemma save_twice (ta tb : struct_time) (path : string) (first second : Model)
    (disk disk1 : fs) :
  gmtime_range ta -> gmtime_range tb ->
  makedirs_from (relative_dir path) (cwd disk)
    (components (relative_dir path)) disk = (disk1, Ret ()) ->
  nodes disk1 !! resolve disk (file_path ta path) <> Some Directory ->
  nodes disk1 !! resolve disk (file_path tb path) <> Some Directory ->
  save tb path second (save ta path first disk).1
  = (Fs (cwd disk)
        (<[resolve disk (file_path tb path) := File (state_dict second)]>
           (<[resolve disk (file_path ta path) := File (state_dict first)]>
              (nodes disk1))),
     Ret None).
Proof.
  intros Ha Hb Hrun Hna Hnb.
  set (fa := resolve disk (file_path ta path)) in *.
  set (fb := resolve disk (file_path tb path)) in *.
  pose proof (makedirs_from_ok _ _ _ _ _ Hrun) as Hok.
  pose proof (makedirs_from_no_nul _ _ _ _ _ Hrun) as Hnames.
  assert (Hfirst : save ta path first disk
                   = (Fs (cwd disk) (<[fa := File (state_dict first)]> (nodes disk1)),
                      Ret None)).
  { rewrite (save_accepted_model_steps state_dict ta path first disk disk1 _
               Ha Hrun).
    fold fa. destruct (nodes disk1 !! fa) as [[|content]|];
      [contradiction|reflexivity..]. }
  rewrite Hfirst. cbn [fst].
  set (disk' := Fs (cwd disk) (<[fa := File (state_dict first)]> (nodes disk1))).
  assert (Hrun' : makedirs_from (relative_dir path) (cwd disk')
                    (components (relative_dir path)) disk' = (disk', Ret ())).
  { apply makedirs_from_again; [exact Hnames|]. intros place Hin.
    destruct (Hok place Hin) as [Hdir _]. subst disk'. cbn [nodes].
    rewrite lookup_insert_ne; [exact Hdir|]. intros <-. contradiction. }
  rewrite (save_accepted_model_steps state_dict tb path second disk' disk' _
             Hb Hrun').
  change (resolve disk' (file_path tb path)) with fb.
  subst disk'. cbn [nodes cwd].
  destruct (decide (fa = fb)) as [Heq|Hne].
  - rewrite Heq, lookup_insert_eq. reflexivity.
  - rewrite lookup_insert_ne by exact Hne.
    destruct (nodes disk1 !! fb) as [[|content]|];
      [contradiction|reflexivity..].
Qed.

(** X16: two models accepted within the same second go to the same file:
    when the first call completes, so does the second, it overwrites the
    file of the first, and the disk is as if the first model had never
    been archived. *)
Theorem same_second_overwrites (now : struct_time) (path : string)
    (first second : Model) (disk : fs) :
  gmtime_range now ->
  (save now path first disk).2 = Ret None ->
  save now path second (save now path first disk).1
  = save now path second disk
  /\ (save now path second disk).2 = Ret None
  /\ nodes (save now path second (save now path first disk).1).1
       !! (resolve disk (relative_dir path) ++ [file_name now])
     = Some (File (state_dict second)).
Proof.
  intros Hnow Hret.
  destruct (save_accepted_model_returned state_dict now path first disk None
              Hnow Hret) as (_ & Hnul & disk1 & Hrun & Hnode & _).
  assert (Hsecond : save now path second disk
                    = (Fs (cwd disk)
                          (<[resolve disk (file_path now path)
                             := File (state_dict second)]> (nodes disk1)),
                       Ret None)).
  { rewrite (save_accepted_model_steps state_dict now path second disk disk1 _
               Hnow Hrun).
    destruct (nodes disk1 !! resolve disk (file_path now path)) as [[|content]|];
      [contradiction|reflexivity..]. }
  rewrite (save_twice now now path first second disk disk1
             Hnow Hnow Hrun Hnode Hnode).
  rewrite Hsecond, insert_insert_eq. cbn [fst snd nodes].
  split; [reflexivity|]. split; [reflexivity|].
  rewrite <- (resolve_file_path now path disk Hnow). apply lookup_insert_eq.
Qed.


End SaveMore.

(** ** The two checks of the board translator's tests *)

Section BoardTestFacts.
Import BoardTests.
Context {Plane : Type}.
Variable sum_is : Plane -> Z -> bool.

(** The checks depend on the planes they look at only. *)
Lemma run_asserts_ext (f g : Z -> option Plane) (todo : list (Z * Z)) :
  Forall (fun ke => f ke.1 = g ke.1) todo ->
  run_asserts sum_is f todo = run_asserts sum_is g todo.
Proof.
  intros Hfg. induction Hfg as [|[k e] todo Hk _ IH]; [reflexivity|].
  cbn [run_asserts]. cbn in Hk. rewrite Hk.
  destruct (g k) as [plane|]; [|reflexivity].
  destruct (sum_is plane e); [exact IH|reflexivity].
Qed.

(** Plane [k] of time step [i] is plane [14 i + k] once the time steps
    are laid out one after the other. *)
Lemma lookup_concat_planes (tensor : list (list Plane)) (extra : list Plane)
    (i k : nat) :
  Forall (fun board => length board = 14%nat) tensor ->
  (k < 14)%nat ->
  (concat tensor ++ extra) !! (14 * i + k)%nat
  = match tensor !! i with
    | Some board => board !! k
    | None => extra !! (14 * (i - length tensor) + k)%nat
    end.
Proof.
  intros Hall Hk. revert i.
  induction Hall as [|board tensor Hlen _ IH]; intros i.
  - cbn. rewrite Nat.sub_0_r. reflexivity.
  - cbn [concat]. rewrite <- app_assoc. destruct i as [|i].
    + cbn [lookup]. rewrite Nat.mul_0_r, Nat.add_0_l.
      rewrite lookup_app_l by lia. reflexivity.
    + rewrite lookup_app_r by lia.
      replace (14 * S i + k - length board)%nat with (14 * i + k)%nat by lia.
      rewrite IH. reflexivity.
Qed.

(** The planes the checks look at are among the fourteen of a time step. *)
Lemma expected_sums_in_range :
  Forall (fun ke : Z * Z => 0 <= ke.1 < 14) expected_sums.
Proof. repeat constructor; cbn; lia. Qed.

(** X18: on a history of time steps of fourteen planes each, the check of
    time step [i] before the view and the check of time step [i] on the
    planes laid out one after the other (whatever planes follow them)
    end the same way. *)
Theorem post_view_check_is_pre_view_check (tensor : list (list Plane))
    (extra : list Plane) (i : Z) :
  Forall (fun board => length board = 14%nat) tensor ->
  0 <= i < Z.of_nat (length tensor) ->
  assert_board_state_post_view sum_is (concat tensor ++ extra) i
  = assert_board_state_pre_view sum_is tensor i.
Proof.
  intros Hall Hi. unfold assert_board_state_post_view, assert_board_state_pre_view.
  apply run_asserts_ext.
  eapply Forall_impl; [exact expected_sums_in_range|].
  intros [k e] Hk. cbn in Hk |- *. unfold index.
  rewrite (bool_decide_eq_true_2 (0 <= 14 * i + k)) by lia.
  rewrite (bool_decide_eq_true_2 (0 <= i)) by lia.
  replace (Z.to_nat (14 * i + k)) with (14 * Z.to_nat i + Z.to_nat k)%nat by lia.
  rewrite lookup_concat_planes by (assumption || lia).
  destruct (tensor !! Z.to_nat i) as [board|] eqn:Hboard.
  - cbn. rewrite (bool_decide_eq_true_2 (0 <= k)) by lia. reflexivity.
  - apply lookup_ge_None in Hboard. lia.
Qed.

End BoardTestFacts.

(** ** The further properties on concrete inputs *)

Lemma bare_state_reaches (evs : list (Coordinator.event Z)) :
  Coordinator.reachable Examples.ops Examples.keys Examples.stronger_wins
    Examples.args20
    (Coordinator.run Examples.ops Examples.keys Examples.stronger_wins
       Examples.args20 MoreExamples.bare_state evs).
Proof.
  exists MoreExamples.bare_state, evs. split; [|reflexivity]. repeat split.
Qed.

(** No counters in the shared dictionary: the first promotion dies at
    line 67 and the signals stay set. *)
Lemma missing_counter_leaves_signals_set_witness :
  Coordinator.distinct_keys Examples.keys
  /\ Coordinator.reachable Examples.ops Examples.keys Examples.stronger_wins
       Examples.args20 MoreExamples.at_snapshot
  /\ Coordinator.pc MoreExamples.at_snapshot = Coordinator.L67_snapshot_self_play
  /\ Coordinator.shared_variables MoreExamples.at_snapshot
       !! "num_self_play_workers" = None
  /\ Coordinator.signal_set "self_play_signal"
       (Coordinator.run Examples.ops Examples.keys Examples.stronger_wins
          Examples.args20
          (Coordinator.coordinator_step Examples.ops Examples.keys
             Examples.stronger_wins Examples.args20 Examples.noon
             MoreExamples.at_snapshot)
          [Coordinator.SelfPlayWorkerAck; Coordinator.TrainingWorkerAck]).
Proof.
  assert (Hpc : Coordinator.pc MoreExamples.at_snapshot
                = Coordinator.L67_snapshot_self_play) by (vm_compute; reflexivity).
  assert (Hnone : Coordinator.shared_variables MoreExamples.at_snapshot
                    !! "num_self_play_workers" = None) by (vm_compute; reflexivity).
  split; [apply example_keys_distinct|]. split; [apply bare_state_reaches|].
  split; [exact Hpc|]. split; [exact Hnone|].
  apply (missing_counter_leaves_signals_set Examples.ops Examples.keys
           Examples.stronger_wins Examples.args20 MoreExamples.at_snapshot
           Examples.noon
           [Coordinator.SelfPlayWorkerAck; Coordinator.TrainingWorkerAck]
           example_keys_distinct (bare_state_reaches _)
           (or_introl (conj Hpc Hnone))).
Defined.

(** No game to play: the first candidate ends the loop. *)
Lemma zero_games_end_the_loop_witness :
  num_evaluate_games MoreExamples.args0 = 0
  /\ Coordinator.pc MoreExamples.doomed_state = Coordinator.L55_evaluate
  /\ Coordinator.new_model_candidate MoreExamples.doomed_state = Some 1
  /\ Coordinator.pc
       (Coordinator.run Examples.ops Examples.keys Examples.stronger_wins
          MoreExamples.args0
          (Coordinator.coordinator_step Examples.ops Examples.keys
             Examples.stronger_wins MoreExamples.args0 Examples.noon
             MoreExamples.doomed_state)
          [Coordinator.TrainingWorkerProposes 2;
           Coordinator.CoordinatorStep Examples.noon])
     = Coordinator.Crashed ZeroDivisionError.
Proof.
  split; [reflexivity|]. split; [reflexivity|]. split; [reflexivity|].
  apply (zero_games_end_the_loop Examples.ops Examples.keys Examples.stronger_wins
           MoreExamples.args0 MoreExamples.doomed_state 1 Examples.noon
           [Coordinator.TrainingWorkerProposes 2;
            Coordinator.CoordinatorStep Examples.noon]
           eq_refl eq_refl eq_refl).
Defined.

(** A regular file where the archive directory should be. *)
Lemma failed_archive_ends_the_loop_witness :
  Coordinator.pc MoreExamples.blocked_state = Coordinator.L83_save
  /\ Coordinator.new_model_candidate MoreExamples.blocked_state = Some 1
  /\ Archive.lookup_path (Coordinator.disk MoreExamples.blocked_state)
       (Archive.relative_dir (accepted_model_path Examples.args20))
     = Some (Archive.File 7)
  /\ Coordinator.disk
       (Coordinator.run Examples.ops Examples.keys Examples.stronger_wins
          Examples.args20
          (Coordinator.coordinator_step Examples.ops Examples.keys
             Examples.stronger_wins Examples.args20 Examples.noon
             MoreExamples.blocked_state)
          [Coordinator.CoordinatorStep Examples.noon])
     = Coordinator.disk MoreExamples.blocked_state.
Proof.
  assert (Hfile : Archive.lookup_path (Coordinator.disk MoreExamples.blocked_state)
                    (Archive.relative_dir (accepted_model_path Examples.args20))
                  = Some (Archive.File 7)) by (vm_compute; reflexivity).
  split; [reflexivity|]. split; [reflexivity|]. split; [exact Hfile|].
  apply (failed_archive_ends_the_loop Examples.ops Examples.keys
           Examples.stronger_wins Examples.args20 MoreExamples.blocked_state 1
           Examples.noon [Coordinator.CoordinatorStep Examples.noon] 7
           eq_refl eq_refl Hfile).
Defined.

(** Two self-play workers and a training worker that never acknowledge. *)
Lemma no_ack_no_exit_witness :
  History.waiting (Coordinator.pc MoreExamples.waiting_state) = true
  /\ Coordinator.pending "num_self_play_workers" MoreExamples.waiting_state
  /\ Coordinator.pending "num_training_workers" MoreExamples.waiting_state
  /\ History.waiting
       (Coordinator.pc
          (Coordinator.run Examples.ops Examples.keys Examples.stronger_wins
             Examples.args20 MoreExamples.waiting_state
             [Coordinator.CoordinatorStep Examples.noon;
              Coordinator.TrainingWorkerProposes 2;
              Coordinator.CoordinatorStep Examples.noon;
              Coordinator.CoordinatorStep Examples.noon])) = true.
Proof.
  assert (Hs : Coordinator.pending "num_self_play_workers" MoreExamples.waiting_state)
    by (exists 2; split; [vm_compute; reflexivity|lia]).
  assert (Ht : Coordinator.pending "num_training_workers" MoreExamples.waiting_state)
    by (exists 1; split; [vm_compute; reflexivity|lia]).
  split; [vm_compute; reflexivity|]. split; [exact Hs|]. split; [exact Ht|].
  apply (no_ack_no_exit Examples.ops Examples.keys Examples.stronger_wins
           Examples.args20 MoreExamples.waiting_state _
           ltac:(vm_compute; reflexivity) Hs Ht).
  repeat constructor.
Defined.

(** After the promotion of model 1 the slot holds the state dict of
    model 1, which won its tournament against model 0. *)
Lemma only_accepted_models_published_witness :
  Coordinator.distinct_keys Examples.keys
  /\ Coordinator.initial Examples.keys Examples.start_state
  /\ History.slot_from_accepted Examples.ops Examples.keys Examples.stronger_wins
       Examples.args20 Examples.start_state Examples.whole_promotion.
Proof.
  split; [apply example_keys_distinct|]. split; [apply start_state_initial|].
  apply (only_accepted_models_published Examples.ops Examples.keys
           Examples.stronger_wins Examples.args20 Examples.start_state
           Examples.whole_promotion example_keys_distinct start_state_initial).
Defined.

(** After the promotion of model 1 the one file of the archive holds the
    state dict of model 1. *)
Lemma only_accepted_models_archived_witness :
  Coordinator.distinct_keys Examples.keys
  /\ Coordinator.initial Examples.keys Examples.start_state
  /\ History.files_from_accepted Examples.ops Examples.keys Examples.stronger_wins
       Examples.args20 Examples.start_state Examples.whole_promotion.
Proof.
  split; [apply example_keys_distinct|]. split; [apply start_state_initial|].
  apply (only_accepted_models_archived Examples.ops Examples.keys
           Examples.stronger_wins Examples.args20 Examples.start_state
           Examples.whole_promotion example_keys_distinct start_state_initial).
Defined.

(** After the promotion of model 1 the coordinator's model and the slot
    both hold the state dict of model 1. *)
Lemma incumbent_is_the_published_model_witness :
  (forall m sd : Z,
     Coordinator.state_dict Examples.ops
       (Coordinator.load_state_dict Examples.ops m sd) = sd)
  /\ Coordinator.distinct_keys Examples.keys
  /\ Coordinator.initial Examples.keys Examples.start_state
  /\ Coordinator.pc
       (Coordinator.run Examples.ops Examples.keys Examples.stronger_wins
          Examples.args20 Examples.start_state Examples.whole_promotion)
     = Coordinator.L44_get
  /\ History.slot_is_current Examples.ops Examples.keys Examples.start_state
  /\ History.slot_is_current Examples.ops Examples.keys
       (Coordinator.run Examples.ops Examples.keys Examples.stronger_wins
          Examples.args20 Examples.start_state Examples.whole_promotion).
Proof.
  assert (Hlaw : forall m sd : Z,
            Coordinator.state_dict Examples.ops
              (Coordinator.load_state_dict Examples.ops m sd) = sd)
    by (intros m sd; reflexivity).
  assert (Hpc : Coordinator.pc
                  (Coordinator.run Examples.ops Examples.keys Examples.stronger_wins
                     Examples.args20 Examples.start_state Examples.whole_promotion)
                = Coordinator.L44_get)
    by (vm_compute; reflexivity).
  assert (H0 : History.slot_is_current Examples.ops Examples.keys Examples.start_state)
    by (vm_compute; reflexivity).
  split; [exact Hlaw|]. split; [apply example_keys_distinct|].
  split; [apply start_state_initial|]. split; [exact Hpc|]. split; [exact H0|].
  exact (incumbent_is_the_published_model Examples.ops Examples.keys
           Examples.stronger_wins Examples.args20 Hlaw Examples.start_state
           Examples.whole_promotion example_keys_distinct start_state_initial
           (or_introl Hpc) (or_introl H0)).
Defined.

(** Model 1 archived at noon on a disk without [../../models]. *)
Lemma noon_archive_completes :
  (Archive.save_accepted_model (Coordinator.state_dict Examples.ops)
     Examples.noon "models" 1 Examples.empty_disk).2 = Ret None.
Proof. vm_compute. reflexivity. Qed.

(** Models 1 and 2 archived within the same second. *)
Lemma same_second_overwrites_witness :
  Archive.gmtime_range Examples.noon
  /\ (Archive.save_accepted_model (Coordinator.state_dict Examples.ops)
        Examples.noon "models" 1 Examples.empty_disk).2 = Ret None
  /\ Archive.nodes
       (Archive.save_accepted_model (Coordinator.state_dict Examples.ops)
          Examples.noon "models" 2
          (Archive.save_accepted_model (Coordinator.state_dict Examples.ops)
             Examples.noon "models" 1 Examples.empty_disk).1).1
       !! (Archive.resolve Examples.empty_disk (Archive.relative_dir "models")
           ++ [Archive.file_name Examples.noon])
     = Some (Archive.File 2).
Proof.
  split; [apply noon_in_range|]. split; [apply noon_archive_completes|].
  apply (proj2 (proj2 (same_second_overwrites (Coordinator.state_dict Examples.ops)
                         Examples.noon "models" 1 2 Examples.empty_disk
                         noon_in_range noon_archive_completes))).
Defined.

Lemma noon_is_valid : Archive.valid_time Examples.noon.
Proof. unfold Archive.valid_time. cbn. lia. Qed.

Lemma a_second_later_is_valid : Archive.valid_time MoreExamples.a_second_later.
Proof. unfold Archive.valid_time. cbn. lia. Qed.

Lemma noon_is_earlier :
  Archive.time_lt Examples.noon MoreExamples.a_second_later
  \/ Archive.time_lt MoreExamples.a_second_later Examples.noon.
Proof. left. unfold Archive.time_lt. cbn. lia. Qed.

(** The disk without [../../models] lets both calls complete. *)
Lemma empty_disk_can_archive (t : Archive.struct_time) :
  Archive.valid_time t ->
  Archive.can_archive t "models" Examples.empty_disk.
Proof.
  intros Ht. pose proof (valid_time_in_range t Ht) as Hr.
  split; [reflexivity|]. split; [|split].
  - intros place content _. unfold Examples.empty_disk. cbn [Archive.nodes].
    rewrite lookup_empty. discriminate.
  - rewrite (resolve_file_path t "models" Examples.empty_disk Hr).
    change (Archive.way Examples.empty_disk (Archive.relative_dir "models"))
      with [["home"; "alphazero"; "models"]].
    change (Archive.resolve Examples.empty_disk (Archive.relative_dir "models"))
      with ["home"; "alphazero"; "models"].
    intros Hin. apply list_elem_of_singleton in Hin.
    apply (f_equal length) in Hin. rewrite length_app in Hin. cbn in Hin. lia.
  - unfold Examples.empty_disk. cbn [Archive.nodes].
    rewrite lookup_empty. discriminate.
Qed.


(** The second time step of a two-step history, followed by seven more
    planes. *)
Lemma post_view_check_is_pre_view_check_witness :
  Forall (fun board : list (list Z) => length board = 14%nat) MoreExamples.history
  /\ 0 <= 1 < Z.of_nat (length MoreExamples.history)
  /\ BoardTests.assert_board_state_post_view MoreExamples.sum_is
       (concat MoreExamples.history ++ replicate 7 []) 1
     = BoardTests.Passed.
Proof.
  assert (Hall : Forall (fun board : list (list Z) => length board = 14%nat)
                        MoreExamples.history) by (repeat constructor).
  split; [exact Hall|]. split; [cbn; lia|].
  rewrite (post_view_check_is_pre_view_check MoreExamples.sum_is
             MoreExamples.history (replicate 7 []) 1 Hall ltac:(cbn; lia)).
  vm_compute. reflexivity.
Defined.
